(** * CMake_deb_packages_CI: release selection, verification and safe extraction

    A shallow embedding of [getLatestVersionAndURLWithGitHubAPI.py] and of the
    fetch / verify / unpack part of [BuildDeb.py], with the properties of the
    pipeline stated and proved over it.

    Conventions.
    - Python exceptions are values of [exn]; a computation that may raise
      returns [result A].
    - Python [dict] and [set] are stdpp's [gmap] and [gset].
    - [str] is [string]; [str.lower] and [str.upper] act on the ASCII letters,
      which is all that hexadecimal digests and fingerprints contain.
    - [datetime] values (already parsed, timezone aware) are instants in [Z].
    - The outside world (HTTP responses, the GnuPG keyring and verifier, the
      downloaded file's digest, the file system) is passed in explicitly. *)

From Stdlib Require Import ZArith Ascii String Lia.
From stdpp Require Import base option list gmap sets strings pretty.

Local Open Scope Z_scope.

(** ** Python exceptions and results *)

Inductive exn : Type :=
| Exception (msg : string)            (* [raise Exception(msg)] in the source *)
| ValueError_relative_to (child parent : string)
                                      (* [PurePath.relative_to]: the two paths *)
| ValueError (msg : string)
| IndexError (msg : string)
| KeyError (key : string)
| AttributeError (msg : string)
| csv_Error (msg : string)
| OSError (msg : string)
| GPGMEError (msg : string).

Inductive result (A : Type) : Type :=
| Ok (a : A)
| Raise (e : exn).
Arguments Ok {A} a.
Arguments Raise {A} e.

(** Sequencing: the first exception raised ends the computation. The
    instances give [result] stdpp's monad notation [x ← r; k]. *)
#[export] Instance result_ret : MRet result := λ A a, Ok a.
#[export] Instance result_bind : MBind result := λ A B k r,
  match r with
  | Ok a => k a
  | Raise e => Raise e
  end.

(** [for x in l: acc = body(acc, x)] where the body may raise. *)
Fixpoint for_each {A S} (body : S → A → result S) (l : list A) (s : S) : result S :=
  match l with
  | [] => Ok s
  | x :: l' => s' ← body s x ; for_each body l' s'
  end.

(** * getLatestVersionAndURLWithGitHubAPI.py *)

Module GitHubAPI.

(** A compiled [re] pattern, seen through [match]: [None] when the string does
    not match, otherwise the captured groups 1, 2, ... *)
Abbreviation Pattern := (string → option (list string)) (only parsing).

Definition datetime : Type := Z.

(** Python compares tuples lexicographically: the first position where the
    two differ decides. *)
Definition tuple_lt (a b : datetime * datetime) : bool :=
  if a.1 =? b.1 then a.2 <? b.2 else a.1 <? b.1.
Definition tuple_gt (a b : datetime * datetime) : bool :=
  if a.1 =? b.1 then a.2 >? b.2 else a.1 >? b.1.
Definition tuple_eq (a b : datetime * datetime) : bool :=
  (a.1 =? b.1) && (a.2 =? b.2).

(** [class ComparableDownloadTarget]: subclasses provide [cmpTuple]. *)
Class ComparableDownloadTarget (T : Type) := { cmpTuple : T → datetime * datetime }.

Definition __lt__ `{ComparableDownloadTarget T} (self other : T) : bool :=
  tuple_lt (cmpTuple self) (cmpTuple other).
Definition __gt__ `{ComparableDownloadTarget T} (self other : T) : bool :=
  tuple_gt (cmpTuple self) (cmpTuple other).
Definition __eq__ `{ComparableDownloadTarget T} (self other : T) : bool :=
  tuple_eq (cmpTuple self) (cmpTuple other).

Record DownloadTargetFile : Type := mkDownloadTargetFile {
  file_role : option string;
  file_created : datetime;
  file_modified : datetime;
  file_uri : string }.

#[export] Instance DownloadTargetFile_cmp : ComparableDownloadTarget DownloadTargetFile :=
  {| cmpTuple self := (file_created self, file_modified self) |}.

Record DownloadTarget : Type := mkDownloadTarget {
  name : string;
  version : string;
  prerelease : bool;
  created : datetime;
  published : datetime;
  files : gmap (option string) DownloadTargetFile }.

#[export] Instance DownloadTarget_cmp : ComparableDownloadTarget DownloadTarget :=
  {| cmpTuple self := (created self, published self) |}.

(** The builtin [max(iterable)]: the running maximum is replaced only by an
    item that compares greater ([item > maxitem]); an empty iterable raises. *)
Definition max `{ComparableDownloadTarget T} (l : list T) : result T :=
  match l with
  | [] => Raise (ValueError "max() arg is an empty sequence")
  | x :: l' => Ok (foldl (λ maxitem item, if __gt__ item maxitem then item else maxitem) x l')
  end.

(** The JSON of the releases endpoint, with the fields the code reads. *)
Record Asset : Type := mkAsset {
  asset_name : string;
  asset_created_at : datetime;
  asset_updated_at : datetime;
  asset_browser_download_url : string }.

Record Release : Type := mkRelease {
  release_name : string;
  release_tag_name : string;
  release_prerelease : bool;
  release_created_at : datetime;
  release_published_at : datetime;
  release_assets : list Asset }.

Inductive Response : Type :=
| ErrorPayload (message : string)     (* a dict with a "message" key *)
| Releases (t : list Release).

(** [tagMatch.group(1)] *)
Definition group1 (groups : list string) : result string :=
  match groups with
  | g :: _ => Ok g
  | [] => Raise (IndexError "no such group")
  end.

(** The inner loop over [downloadFileNamesRxs.items()] for one asset [a]. *)
Definition match_asset (downloadFileNamesRxs : gmap (option string) Pattern) (a : Asset)
    (files : gmap (option string) DownloadTargetFile) : gmap (option string) DownloadTargetFile :=
  map_fold (λ role downloadFileNameRx files,
      match downloadFileNameRx (asset_name a) with
      | None => files
      | Some _ =>
          <[role := mkDownloadTargetFile role (asset_created_at a) (asset_updated_at a)
                      (asset_browser_download_url a)]> files
      end) files downloadFileNamesRxs.

(** [files = {}; for a in r["assets"]: ...] *)
Definition collect_files (downloadFileNamesRxs : gmap (option string) Pattern)
    (assets : list Asset) : gmap (option string) DownloadTargetFile :=
  foldl (λ files a, match_asset downloadFileNamesRxs a files) ∅ assets.

(** One iteration of [for r in t]: what it yields, if anything. *)
Definition getTargets_release (titleRx : option Pattern) (tagRx : Pattern)
    (downloadFileNamesRxs : gmap (option string) Pattern) (r : Release)
    : result (option DownloadTarget) :=
  let nm := release_name r in
  if (match titleRx with
      | Some rx => negb (bool_decide (is_Some (rx nm)))
      | None => false
      end) then Ok None
  else
    match tagRx (release_tag_name r) with
    | None => Ok None
    | Some tagMatch =>
        let pr := release_prerelease r in
        v ← group1 tagMatch ;
        let c := release_created_at r in
        let p := release_published_at r in
        let files := collect_files downloadFileNamesRxs (release_assets r) in
        if bool_decide (size files = size downloadFileNamesRxs)
        then Ok (Some (mkDownloadTarget nm v pr c p files))
        else Ok None
    end.

(** [getTargets], after the HTTP request: [t] is the decoded body; the
    generator is run to its end and its yields collected in order. A pattern
    that is not a dict stands for the single role [None]. *)
Definition getTargets (t : Response) (titleRx : option Pattern) (tagRx : Pattern)
    (downloadFileNamesRxs : Pattern + gmap (option string) Pattern)
    : result (list DownloadTarget) :=
  let downloadFileNamesRxs :=
    match downloadFileNamesRxs with
    | inl rx => {[ None := rx ]}
    | inr d => d
    end in
  match t with
  | ErrorPayload message => Raise (Exception message)
  | Releases t =>
      for_each (λ yielded r,
          y ← getTargets_release titleRx tagRx downloadFileNamesRxs r ;
          Ok (yielded ++ option_list y)) t []
  end.

End GitHubAPI.

(** * Strings *)

Module Str.

Definition is_upper (c : ascii) : bool :=
  let n := N_of_ascii c in ((65 <=? n) && (n <=? 90))%N.
Definition is_lower (c : ascii) : bool :=
  let n := N_of_ascii c in ((97 <=? n) && (n <=? 122))%N.

Definition lower_char (c : ascii) : ascii :=
  if is_upper c then ascii_of_N (N_of_ascii c + 32) else c.
Definition upper_char (c : ascii) : ascii :=
  if is_lower c then ascii_of_N (N_of_ascii c - 32) else c.

(** [str.lower] and [str.upper] *)
Fixpoint lower (s : string) : string :=
  match s with
  | EmptyString => EmptyString
  | String c s' => String (lower_char c) (lower s')
  end.
Fixpoint upper (s : string) : string :=
  match s with
  | EmptyString => EmptyString
  | String c s' => String (upper_char c) (upper s')
  end.

(** [sep.join(l)] *)
Fixpoint join (sep : string) (l : list string) : string :=
  match l with
  | [] => ""
  | [x] => x
  | x :: l' => x +:+ sep +:+ join sep l'
  end.

(** [s.split(sep)] for a one-character separator: never an empty list. *)
Fixpoint split_aux (sep : ascii) (cur : string) (s : string) : list string :=
  match s with
  | EmptyString => [cur]
  | String c s' =>
      if Ascii.eqb c sep then cur :: split_aux sep "" s'
      else split_aux sep (cur +:+ String c "") s'
  end.
Definition split (sep : ascii) (s : string) : list string := split_aux sep "" s.


(** [c in s] for a character. *)
Fixpoint mem (c : ascii) (s : string) : bool :=
  match s with
  | EmptyString => false
  | String c' s' => Ascii.eqb c' c || mem c s'
  end.

(** [not s.endswith(c)] *)
Fixpoint not_ending_with (c : ascii) (s : string) : bool :=
  match s with
  | EmptyString => true
  | String c' EmptyString => negb (Ascii.eqb c' c)
  | String _ s' => not_ending_with c s'
  end.

(** How many copies of [c] the string starts with. *)
Fixpoint count_leading (c : ascii) (s : string) : nat :=
  match s with
  | String c' s' => if Ascii.eqb c' c then S (count_leading c s') else O
  | EmptyString => O
  end.

End Str.

(** * pathlib, on POSIX

    A path is its root ([""], ["/"] or ["//"]) and its components. Parsing
    drops empty and ["."] components and keeps [".."], as [PurePosixPath]
    does. *)

Module pathlib.

Record PurePath : Type := mkPath { root : string; names : list string }.

Definition is_name (c : string) : bool :=
  negb (String.eqb c "") && negb (String.eqb c ".").

Definition PurePath_of (s : string) : PurePath :=
  {| root := match Str.count_leading "/" s with
             | O => ""
             | 2%nat => "//"
             | _ => "/"
             end;
     names := List.filter is_name (Str.split "/" s) |}.

(** [self.parts]: the root, when there is one, is the first part. *)
Definition parts (p : PurePath) : list string :=
  (if String.eqb (root p) "" then [] else [root p]) ++ names p.

(** [str(self)] *)
Definition str (p : PurePath) : string :=
  match root p, names p with
  | EmptyString, [] => "."
  | r, l => r +:+ Str.join "/" l
  end.

(** [self / other] *)
Definition joinpath (self other : PurePath) : PurePath :=
  if String.eqb (root other) "" then
    {| root := root self; names := names self ++ names other |}
  else other.

(** [self.parent] *)
Definition parent (self : PurePath) : PurePath :=
  {| root := root self; names := removelast (names self) |}.

(** [self.name] *)
Definition name (self : PurePath) : string := List.last (names self) "".

(** Collapsing [".."] on a stack of components kept in reverse; [".."] at the
    root stays at the root. *)
Fixpoint normalize_aux (stack : list string) (l : list string) : list string :=
  match l with
  | [] => rev stack
  | c :: l' =>
      if String.eqb c ".." then normalize_aux (tail stack) l'
      else normalize_aux (c :: stack) l'
  end.
Definition normalize (l : list string) : list string := normalize_aux [] l.

(** [self.absolute()]; the working directory is ["/"] followed by [cwd]. *)
Definition absolute (cwd : list string) (self : PurePath) : PurePath :=
  joinpath {| root := "/"; names := cwd |} self.

(** [self.resolve()] on a file system without symbolic links: the path made
    absolute, with its [".."] components collapsed. *)
Definition resolve (cwd : list string) (self : PurePath) : PurePath :=
  let a := absolute cwd self in
  {| root := root a; names := normalize (names a) |}.

(** [drop_prefix pre l]: what follows [pre] in [l], if [l] starts with it. *)
Fixpoint drop_prefix (pre l : list string) : option (list string) :=
  match pre, l with
  | [], _ => Some l
  | x :: pre', y :: l' => if String.eqb x y then drop_prefix pre' l' else None
  | _ :: _, [] => None
  end.

(** [self.relative_to(other)]: purely lexical; raises [ValueError] when
    [other]'s parts are not a prefix of [self]'s. *)
Definition relative_to (self other : PurePath) : result PurePath :=
  match (if String.eqb (root self) (root other)
         then drop_prefix (names other) (names self) else None) with
  | Some rest => Ok {| root := ""; names := rest |}
  | None => Raise (ValueError_relative_to (str self) (str other))
  end.

End pathlib.

(** * BuildDeb.py *)

Module BuildDeb.
Import pathlib.

(** ** The file system and the archive

    The file system has directories and regular files and no symbolic links;
    a location is the list of component names below ["/"]. *)

Definition bytes : Type := list Byte.byte.

Inductive node : Type :=
| File (data : bytes)
| Dir.

(** ["/"] always exists; any other directory must be present in the tree. *)
Definition is_dir_at (t : gmap (list string) node) (loc : list string) : bool :=
  match loc with
  | [] => true
  | _ => match t !! loc with Some Dir => true | _ => false end
  end.

(** The content of the regular file at [loc], if there is one. *)
Definition file_at (t : gmap (list string) node) (loc : list string) : option bytes :=
  match t !! loc with Some (File data) => Some data | _ => None end.

(** Path lookup as the kernel does it, for an absolute path: every component
    is resolved inside a directory that exists. [stack] is the current
    location, reversed. *)
Fixpoint walk (t : gmap (list string) node) (stack : list string) (l : list string)
    : option (list string) :=
  match l with
  | [] => Some (rev stack)
  | c :: l' =>
      if is_dir_at t (rev stack) then
        if String.eqb c ".." then walk t (tail stack) l' else walk t (c :: stack) l'
      else None
  end.

(** [Path.is_file()] *)
Definition is_file (t : gmap (list string) node) (p : PurePath) : bool :=
  match walk t [] (names p) with
  | Some loc => bool_decide (is_Some (file_at t loc))
  | None => false
  end.

(** [Path.unlink()] of a path for which [is_file] holds. *)
Definition unlink (t : gmap (list string) node) (p : PurePath) : gmap (list string) node :=
  match walk t [] (names p) with
  | Some loc => delete loc t
  | None => t
  end.

(** [Path.mkdir(parents=True, exist_ok=True)]: every directory on the way is
    created when missing; a regular file on the way is an error, and the
    directories created before it stay. *)
Fixpoint mkdir_aux (stack : list string) (l : list string) (t : gmap (list string) node)
    : gmap (list string) node * result unit :=
  match l with
  | [] => (t, Ok ())
  | c :: l' =>
      if String.eqb c ".." then mkdir_aux (tail stack) l' t
      else
        let loc := rev (c :: stack) in
        match t !! loc with
        | Some (File _) => (t, Raise (OSError "File exists or not a directory"))
        | Some Dir => mkdir_aux (c :: stack) l' t
        | None => mkdir_aux (c :: stack) l' (<[loc := Dir]> t)
        end
  end.
Definition mkdir_parents (p : PurePath) (t : gmap (list string) node)
    : gmap (list string) node * result unit :=
  mkdir_aux [] (names p) t.

Inductive tartype : Type := REGTYPE | DIRTYPE.

(** A member of the archive: [f.name], [f.size], and what [extract] needs. *)
Record TarInfo : Type := mkTarInfo {
  tar_name : string;
  tar_size : Z;
  tar_type : tartype;
  tar_data : bytes }.

(** The archive file: its bytes as stored, and the members [tarfile] iterates
    over. *)
Record Archive : Type := mkArchive {
  raw : bytes;
  members : list TarInfo }.

(** [TarFile.extract(f, extrDir, set_attrs=True)], attributes apart: a
    directory member is created unless something is there already, a regular
    member is written over whatever regular file is there. *)
Definition extract (cwd : list string) (f : TarInfo) (extrDir : PurePath)
    (t : gmap (list string) node) : result (gmap (list string) node) :=
  let targetpath := joinpath extrDir (PurePath_of (tar_name f)) in
  match walk t [] (names (absolute cwd targetpath)) with
  | None => Raise (OSError "No such file or directory")
  | Some loc =>
      match tar_type f with
      | DIRTYPE =>
          match t !! loc with
          | None => Ok (match loc with [] => t | _ => <[loc := Dir]> t end)
          | Some _ => Ok t
          end
      | REGTYPE =>
          if is_dir_at t loc then Raise (OSError "Is a directory")
          else Ok (<[loc := File (tar_data f)]> t)
      end
  end.

(** ** [isSubdir] *)

Definition isSubdir (cwd : list string) (parent child : PurePath) : result bool :=
  let parent := resolve cwd (absolute cwd parent) in
  child ← relative_to (resolve cwd (absolute cwd child)) parent ;
  Ok (negb (existsb (λ p, String.eqb p "..") (parts child))).

(** ** [unpack] *)

(** The [tqdm] progress bar: its total, its counter and its postfix. *)
Record ProgressBar : Type := mkProgressBar {
  total : Z;
  n : Z;
  postfix : string }.

Record State : Type := mkState {
  fs : gmap (list string) node;
  pb : ProgressBar }.

(** [struct.unpack("<I", b)] of four bytes *)
Definition unpack_le32 (b : bytes) : Z :=
  fold_right (λ x acc, Z.of_N (Byte.to_N x) + 256 * acc) 0 b.

(** Lines 147-150: the declared size in the last four bytes of the file.
    Seeking before the start of the file is an error. *)
Definition read_unpackedSize (raw : bytes) : result Z :=
  let packedSize := Z.of_nat (length raw) in
  if packedSize - 4 <? 0 then Raise (OSError "Invalid argument")
  else Ok (unpack_le32 (drop (Z.to_nat (packedSize - 4)) raw)).

(** The body of [for f in arch]. The state reached is returned also when the
    body raises: what was written stays written. *)
Definition unpack_member (cwd : list string) (extrDir : PurePath) (st : State) (f : TarInfo)
    : State * result unit :=
  let fp := absolute cwd (joinpath extrDir (PurePath_of (tar_name f))) in
  match isSubdir cwd extrDir fp with
  | Raise e => (st, Raise e)
  | Ok false => (st, Ok ())
  | Ok true =>
      let t1 := if is_file (fs st) fp then unlink (fs st) fp else fs st in
      match mkdir_parents (parent fp) t1 with
      | (t2, Raise e) => (mkState t2 (pb st), Raise e)
      | (t2, Ok _) =>
          match extract cwd f extrDir t2 with
          | Raise e => (mkState t2 (pb st), Raise e)
          | Ok t3 =>
              match relative_to fp extrDir with
              | Raise e => (mkState t3 (pb st), Raise e)
              | Ok rel =>
                  (mkState t3 (mkProgressBar (total (pb st)) (n (pb st) + tar_size f)
                                 (str rel)), Ok ())
              end
          end
      end
  end.

Fixpoint unpack_members (cwd : list string) (extrDir : PurePath) (l : list TarInfo) (st : State)
    : State * result unit :=
  match l with
  | [] => (st, Ok ())
  | f :: l' =>
      match unpack_member cwd extrDir st f with
      | (st', Ok _) => unpack_members cwd extrDir l' st'
      | (st', Raise e) => (st', Raise e)
      end
  end.

(** [unpack(archPath, extrDir)] in working directory [cwd], on the file
    system [t]; [arch] is the file at [archPath]. The result is the file
    system and the progress bar as they are when [unpack] returns or raises. *)
Definition unpack (cwd : list string) (t : gmap (list string) node) (arch : Archive)
    (extrDir : PurePath) : State * result unit :=
  let extrDir := resolve cwd extrDir in
  match read_unpackedSize (raw arch) with
  | Raise e => (mkState t (mkProgressBar 0 0 ""), Raise e)
  | Ok unpackedSize =>
      unpack_members cwd extrDir (members arch) (mkState t (mkProgressBar unpackedSize 0 ""))
  end.

(** ** [parseHashesFile]

    [csv.reader] with [HashesFilesDialect]: no quoting, no escape character,
    delimiter [" "], initial spaces kept, not strict. The reader is the state
    machine of the [csv] module restricted to the states this dialect can
    reach. *)

Definition LF : ascii := ascii_of_N 10.
Definition CR : ascii := ascii_of_N 13.
Definition NUL : ascii := ascii_of_N 0.
Definition delimiter : ascii := " ".

(** Iterating over [StringIO(hashes)]: lines end with and keep their ["\n"];
    a last line without one is a line too. *)
Fixpoint readlines_aux (cur : string) (s : string) : list string :=
  match s with
  | EmptyString => match cur with EmptyString => [] | _ => [cur] end
  | String c s' =>
      if Ascii.eqb c LF then (cur +:+ String LF "") :: readlines_aux "" s'
      else readlines_aux (cur +:+ String c "") s'
  end.
Definition readlines (s : string) : list string := readlines_aux "" s.

Inductive ParserState : Type := START_RECORD | START_FIELD | IN_FIELD | EAT_CRNL.

Record Reader : Type := mkReader {
  state : ParserState;
  fields : list string;
  field : string }.

Definition parse_reset : Reader := mkReader START_RECORD [] "".

Definition field_limit : N := 131072.

Definition parse_save_field (self : Reader) : Reader :=
  mkReader (state self) (fields self ++ [field self]) "".

Definition parse_add_char (self : Reader) (c : ascii) : result Reader :=
  if (field_limit <=? N.of_nat (String.length (field self)))%N
  then Raise (csv_Error "field larger than field limit (131072)")
  else Ok (mkReader (state self) (fields self) (field self +:+ String c "")).

Definition set_state (self : Reader) (s : ParserState) : Reader :=
  mkReader s (fields self) (field self).

Definition is_newline (c : ascii) : bool := Ascii.eqb c LF || Ascii.eqb c CR.

(** [parse_process_char]; [None] is the end-of-line marker the reader feeds
    after the last character of each line. *)
Definition parse_process_char (self : Reader) (c : option ascii) : result Reader :=
  let start_field (self : Reader) : result Reader :=
    match c with
    | None => Ok (set_state (parse_save_field self) START_RECORD)
    | Some ch =>
        if is_newline ch then Ok (set_state (parse_save_field self) EAT_CRNL)
        else if Ascii.eqb ch delimiter then Ok (parse_save_field self)
        else self ← parse_add_char self ch ; Ok (set_state self IN_FIELD)
    end in
  match state self with
  | START_RECORD =>
      match c with
      | None => Ok self
      | Some ch =>
          if is_newline ch then Ok (set_state self EAT_CRNL)
          else start_field (set_state self START_FIELD)
      end
  | START_FIELD => start_field self
  | IN_FIELD =>
      match c with
      | None => Ok (set_state (parse_save_field self) START_RECORD)
      | Some ch =>
          if is_newline ch then Ok (set_state (parse_save_field self) EAT_CRNL)
          else if Ascii.eqb ch delimiter
          then Ok (set_state (parse_save_field self) START_FIELD)
          else parse_add_char self ch
      end
  | EAT_CRNL =>
      match c with
      | None => Ok (set_state self START_RECORD)
      | Some ch =>
          if is_newline ch then Ok self
          else Raise (csv_Error "new-line character seen in unquoted field")
      end
  end.

(** The characters of one line. *)
Fixpoint parse_line (self : Reader) (line : string) : result Reader :=
  match line with
  | EmptyString => Ok self
  | String c line' =>
      if Ascii.eqb c NUL then Raise (csv_Error "line contains NULL byte")
      else self ← parse_process_char self (Some c) ; parse_line self line'
  end.

(** [for line in csv.reader(lines, dialect): body]. Each call of the
    reader's [__next__] consumes lines until the parser is back in
    [START_RECORD] and hands the fields to the body; at the end of the input
    a pending field is saved and the record returned. *)
Fixpoint for_rows {S} (body : S → list string → result S) (self : Reader)
    (lines : list string) (s : S) : result S :=
  match lines with
  | [] =>
      match field self with
      | EmptyString => Ok s
      | _ => body s (fields (parse_save_field self))
      end
  | line :: lines' =>
      self ← parse_line self line ;
      self ← parse_process_char self None ;
      match state self with
      | START_RECORD => s ← body s (fields self) ; for_rows body parse_reset lines' s
      | _ => for_rows body self lines' s
      end
  end.

(** [l[i]] *)
Definition getitem (l : list string) (i : nat) : result string :=
  match l !! i with
  | Some x => Ok x
  | None => Raise (IndexError "list index out of range")
  end.

Definition parseHashesFile (hashes : string) : result (gmap string string) :=
  for_rows (λ res line,
      v ← getitem line 0 ;
      k ← getitem line 2 ;
      Ok (<[k := v]> res)) parse_reset (readlines hashes) ∅.

(** ** [verifyBlob] *)

Record Subkey : Type := mkSubkey { subkey_fpr : string }.
Record Key : Type := mkKey { key_fpr : string; subkeys : list Subkey }.
Record Signature : Type := mkSignature { sig_fpr : string }.

(** [gpgContext]: the keys of the keyring and the verifier, which raises on a
    bad or malformed signature and otherwise reports the signatures made
    over the data. *)
Record Context : Type := mkContext {
  op_keylist_all : list Key;
  verify : string → string → result (list Signature) }.

Definition findKeyByFingerprint (gpgContext : Context) (fp : string) : option Key :=
  List.find (λ k, String.eqb (key_fpr k) fp) (op_keylist_all gpgContext).

(** Truth value of an optional string argument: [None] and [""] are false. *)
Definition truthy (s : option string) : option string :=
  match s with
  | Some (String c s') => Some (String c s')
  | _ => None
  end.

(** Lines 226-232 *)
Definition allowedFingerprints (gpgContext : Context)
    (keyFingerprint subkeyFingerprint : option string) : result (gset string) :=
  match truthy keyFingerprint with
  | Some keyFingerprint =>
      match findKeyByFingerprint gpgContext (Str.upper keyFingerprint) with
      | None => Raise (AttributeError "'NoneType' object has no attribute 'subkeys'")
      | Some key => Ok (foldl (λ allowed sk, allowed ∪ {[subkey_fpr sk]}) ∅ (subkeys key))
      end
  | None =>
      match truthy subkeyFingerprint with
      | Some subkeyFingerprint => Ok {[Str.upper subkeyFingerprint]}
      | None => Ok ∅
      end
  end.

Definition verifyBlob (gpgContext : Context) (signedData signature : string)
    (keyFingerprint subkeyFingerprint : option string) : result bool :=
  allowedFingerprints ← allowedFingerprints gpgContext keyFingerprint subkeyFingerprint ;
  res ← verify gpgContext signedData signature ;
  if existsb (λ s, bool_decide (sig_fpr s ∈ allowedFingerprints)) res then Ok true
  else Raise (Exception ("Wrong public keys used: " +:+ Str.join " " (sig_fpr <$> res))).

(** ** [doBuild], lines 275-292: fetch and verify *)

Definition signingKeyFingerprint : string := "CBA23971357C2E6590D9EFD3EC8FEF3A7BFB4EDA".
Definition licenseFileURI : string :=
  "https://gitlab.kitware.com/cmake/cmake/raw/master/Copyright.txt".
Definition archPath : PurePath := PurePath_of "downloads/x86_64.tar.gz".

(** What [doBuild] reaches outside the program: the content behind a URI
    (for [requests.get] and for the downloader alike), the GnuPG context,
    and the SHA-256 hex digest [sumFile] computes of a file's content. *)
Record World : Type := mkWorld {
  http_get : string → result string;
  gpgContext : Context;
  sha256 : string → string }.

(** [d[key]] *)
Definition dict_getitem {K} `{Countable K} {V} (d : gmap K V) (key : K) (shown : string)
    : result V :=
  match d !! key with
  | Some v => Ok v
  | None => Raise (KeyError shown)
  end.

(** From the download of the manifest to the hash check; the value is
    [archPath], which line 294 hands to [unpack]. *)
Definition doBuild_fetch (w : World) (selectedTarget : GitHubAPI.DownloadTarget)
    : result PurePath :=
  let files := GitHubAPI.files selectedTarget in
  hashesFile ← dict_getitem files (Some "hashes") "hashes" ;
  hashesRaw ← http_get w (GitHubAPI.file_uri hashesFile) ;
  hashesSigFile ← dict_getitem files (Some "hashesSig") "hashesSig" ;
  hashesSigRaw ← http_get w (GitHubAPI.file_uri hashesSigFile) ;
  _ ← verifyBlob (gpgContext w) hashesRaw hashesSigRaw (Some signingKeyFingerprint) None ;
  hashes ← parseHashesFile hashesRaw ;
  binary ← dict_getitem files (Some "binary") "binary" ;
  let archiveFileName := name (PurePath_of (GitHubAPI.file_uri binary)) in
  etalon ← dict_getitem hashes archiveFileName archiveFileName ;
  let archiveEtalonHash := Str.lower etalon in
  archive ← http_get w (GitHubAPI.file_uri binary) ;
  _ ← http_get w licenseFileURI ;
  let actualFileHash := sha256 w archive in
  if String.eqb (Str.lower actualFileHash) archiveEtalonHash then Ok archPath
  else Raise (Exception "Bad hash for the downloaded archive!").

End BuildDeb.

(** * Vocabulary of the statements *)

Module Spec.
Import GitHubAPI.

(** The file recorded for [role] when asset [a] matches its pattern
    (line 107). *)
Definition file_of (role : option string) (a : Asset) : DownloadTargetFile :=
  mkDownloadTargetFile role (asset_created_at a) (asset_updated_at a)
    (asset_browser_download_url a).

(** [downloadFileNameRx.match(a["name"])] is not [None]. *)
Definition matches (rx : Pattern) (a : Asset) : bool :=
  bool_decide (is_Some (rx (asset_name a))).

(** The release passes the title filter of line 84. *)
Definition title_ok (titleRx : option Pattern) (r : Release) : Prop :=
  match titleRx with
  | Some rx => is_Some (rx (release_name r))
  | None => True
  end.

(** Every role has at least one asset of the release that its pattern
    matches. *)
Definition every_role_matched (rxs : gmap (option string) Pattern) (r : Release) : Prop :=
  ∀ role rx, rxs !! role = Some rx → ∃ a, a ∈ release_assets r ∧ matches rx a = true.

(** The target line 110 builds for release [r] with version [v]. *)
Definition target_of (rxs : gmap (option string) Pattern) (r : Release) (v : string)
    : DownloadTarget :=
  mkDownloadTarget (release_name r) v (release_prerelease r) (release_created_at r)
    (release_published_at r) (collect_files rxs (release_assets r)).

(** [child] is [parent] or lies below it: same root, and [parent]'s
    components are the first components of [child]. *)
Definition inside (parent child : pathlib.PurePath) : Prop :=
  pathlib.root child = pathlib.root parent ∧
  ∃ rest, pathlib.names child = pathlib.names parent ++ rest.

(** The location [loc] of the file system is at or below the directory
    [dir]. *)
Definition under (dir loc : list string) : Prop := ∃ rest, loc = dir ++ rest.


(** The record the reader makes of one line, read on its own. *)
Definition row_of (line : string) : result (list string) :=
  self ← BuildDeb.parse_line BuildDeb.parse_reset line ;
  self ← BuildDeb.parse_process_char self None ;
  Ok (BuildDeb.fields self).

(** [res[line[2]] = line[0]] for a record with at least three fields. *)
Definition put_row (res : gmap string string) (line : list string) : gmap string string :=
  <[nth 2 line "" := nth 0 line ""]> res.

(** A line of a manifest, and the text of a manifest: one line per entry,
    [hash algorithm filename], each ended by a line feed. *)
Record ManifestLine : Type := mkManifestLine {
  hash : string;
  algorithm : string;
  filename : string }.

Definition render_line (e : ManifestLine) : string :=
  hash e +:+ " " +:+ algorithm e +:+ " " +:+ filename e.

Fixpoint render (entries : list ManifestLine) : string :=
  match entries with
  | [] => ""
  | e :: entries' => render_line e +:+ String BuildDeb.LF (render entries')
  end.

(** No line break and no NUL in [s]. *)
Definition one_line (s : string) : Prop :=
  Str.mem BuildDeb.LF s = false ∧ Str.mem BuildDeb.CR s = false ∧
  Str.mem BuildDeb.NUL s = false.

(** A field the format can carry: no delimiter in it either. *)
Definition plain_field (s : string) : Prop :=
  one_line s ∧ Str.mem BuildDeb.delimiter s = false.

(** An entry the format can carry, in a line within the reader's field
    limit. *)
Definition well_formed (e : ManifestLine) : Prop :=
  plain_field (hash e) ∧ plain_field (algorithm e) ∧ plain_field (filename e) ∧
  (N.of_nat (String.length (render_line e)) <= BuildDeb.field_limit)%N.



(** Where [unpack] means to put member [f]: [extrDir / f.name]. *)
Definition destination (extrDir : pathlib.PurePath) (f : BuildDeb.TarInfo) : pathlib.PurePath :=
  pathlib.joinpath extrDir (pathlib.PurePath_of (BuildDeb.tar_name f)).

End Spec.

(** * Sample data *)

Module Sample.
Import GitHubAPI.

(** A pattern matching the names that end with [suffix]; no groups. *)
Definition ends_with (suffix : string) : Pattern := λ s,
  if (String.length suffix <=? String.length s)%nat &&
     String.eqb (String.substring (String.length s - String.length suffix)
                   (String.length suffix) s) suffix
  then Some [] else None.

(** A tag pattern: ["v"] followed by the version, which is group 1. *)
Definition v_tag : Pattern := λ s,
  match s with
  | String c rest => if Ascii.eqb c "v" then Some [rest] else None
  | EmptyString => None
  end.

Definition roles : gmap (option string) Pattern :=
  {[ Some "binary" := ends_with ".tar.gz" ; Some "hashes" := ends_with ".txt" ]}.

Definition two_binaries : Release :=
  mkRelease "CMake 3.13.4" "v3.13.4" false 100 200
    [ mkAsset "cmake-3.13.4-Linux-x86_64.tar.gz" 101 102 "https://example.org/a.tar.gz" ;
      mkAsset "cmake-3.13.4-SHA-256.txt" 103 104 "https://example.org/h.txt" ;
      mkAsset "cmake-3.13.4.tar.gz" 105 106 "https://example.org/b.tar.gz" ].

Definition no_hashes : Release :=
  mkRelease "CMake 3.13.3" "v3.13.3" false 90 95
    [ mkAsset "cmake-3.13.3-Linux-x86_64.tar.gz" 91 92 "https://example.org/c.tar.gz" ].


(** The same declared size, and members that stay inside. *)
Definition harmless : list BuildDeb.TarInfo :=
  [ BuildDeb.mkTarInfo "cmake" 0 BuildDeb.DIRTYPE [] ;
    BuildDeb.mkTarInfo "cmake/bin/cmake" 3 BuildDeb.REGTYPE [Byte.x01; Byte.x02; Byte.x03] ].

(** A manifest of two files; the second digest is in upper case. *)
Definition manifest : list Spec.ManifestLine :=
  [ Spec.mkManifestLine "abc123" "SHA-256" "foo.tar.gz" ;
    Spec.mkManifestLine "DEF456" "SHA-256" "bar.txt" ].

(** A line of four fields followed by a line of three, the last one without
    its line feed. *)
Definition four_then_three : string :=
  "abc123 SHA-256 foo.tar.gz extra" +:+ String BuildDeb.LF "x y z".

(** A keyring with the release key and one signing subkey. *)
Definition keyring : list BuildDeb.Key :=
  [ BuildDeb.mkKey BuildDeb.signingKeyFingerprint
      [ BuildDeb.mkSubkey BuildDeb.signingKeyFingerprint ;
        BuildDeb.mkSubkey "0123456789ABCDEF0123456789ABCDEF01234567" ] ].

(** A verifier that reports one good signature, made by [signer]. *)
Definition signed_by (signer : string) : BuildDeb.Context :=
  BuildDeb.mkContext keyring (λ _ _, Ok [BuildDeb.mkSignature signer]).

(** A world in which the manifest lists digest [listed] for the archive
    [foo.tar.gz], the manifest is signed by the release key's subkey, and the
    downloaded archive has digest [actual]. *)
Definition world (listed actual : string) : BuildDeb.World :=
  BuildDeb.mkWorld
    (λ uri,
       if String.eqb uri "https://example.org/hashes.txt"
       then Ok (listed +:+ " SHA-256 foo.tar.gz" +:+ String BuildDeb.LF "")
       else if String.eqb uri "https://example.org/hashes.txt.asc" then Ok "signature"
       else if String.eqb uri "https://example.org/dl/foo.tar.gz" then Ok "payload"
       else if String.eqb uri BuildDeb.licenseFileURI then Ok "license"
       else Raise (Exception "404"))
    (signed_by "0123456789ABCDEF0123456789ABCDEF01234567")
    (λ _, actual).

Definition hashes_file : GitHubAPI.DownloadTargetFile :=
  GitHubAPI.mkDownloadTargetFile (Some "hashes") 1 2 "https://example.org/hashes.txt".
Definition hashesSig_file : GitHubAPI.DownloadTargetFile :=
  GitHubAPI.mkDownloadTargetFile (Some "hashesSig") 1 2 "https://example.org/hashes.txt.asc".
Definition binary_file : GitHubAPI.DownloadTargetFile :=
  GitHubAPI.mkDownloadTargetFile (Some "binary") 1 2 "https://example.org/dl/foo.tar.gz".

Definition selected : GitHubAPI.DownloadTarget :=
  GitHubAPI.mkDownloadTarget "CMake 3.13.4" "3.13.4" false 100 200
    {[ Some "hashes" := hashes_file ; Some "hashesSig" := hashesSig_file ;
       Some "binary" := binary_file ]}.

End Sample.

(** * Regular expressions

    The patterns of [BuildDeb.py] are built from literal characters, [\d],
    concatenation, alternation and bounded or unbounded repetition, and are
    used through [Pattern.match] between [^] and [$]. *)

Module re.

Inductive regex : Type :=
| Eps                                  (* the empty string *)
| Lit (c : ascii)                      (* one given character *)
| Digit                                (* [\d], on ASCII *)
| Cat (r1 r2 : regex)
| Alt (r1 r2 : regex)                  (* [r1|r2] *)
| Star (r : regex)                     (* [r*] *)
| Never.                               (* no string at all *)

(** [r+], [r?] and [r{1,2}] *)
Definition Plus (r : regex) : regex := Cat r (Star r).
Definition Opt (r : regex) : regex := Alt r Eps.
Definition Rep12 (r : regex) : regex := Cat r (Opt r).

(** A string of literal characters. *)
Fixpoint Text (s : string) : regex :=
  match s with
  | EmptyString => Eps
  | String c s' => Cat (Lit c) (Text s')
  end.

Definition is_digit (c : ascii) : bool :=
  let n := N_of_ascii c in ((48 <=? n) && (n <=? 57))%N.

(** The strings a regular expression matches in full. *)
Inductive Matches : regex → string → Prop :=
| MEps : Matches Eps ""
| MLit c : Matches (Lit c) (String c "")
| MDigit c : is_digit c = true → Matches Digit (String c "")
| MCat r1 r2 s1 s2 : Matches r1 s1 → Matches r2 s2 → Matches (Cat r1 r2) (s1 +:+ s2)
| MAltL r1 r2 s : Matches r1 s → Matches (Alt r1 r2) s
| MAltR r1 r2 s : Matches r2 s → Matches (Alt r1 r2) s
| MStar0 r : Matches (Star r) ""
| MStarS r s1 s2 : Matches r s1 → Matches (Star r) s2 → Matches (Star r) (s1 +:+ s2).

(** Matching by derivatives. *)
Fixpoint nullable (r : regex) : bool :=
  match r with
  | Eps => true
  | Lit _ => false
  | Digit => false
  | Cat r1 r2 => nullable r1 && nullable r2
  | Alt r1 r2 => nullable r1 || nullable r2
  | Star _ => true
  | Never => false
  end.

Fixpoint deriv (c : ascii) (r : regex) : regex :=
  match r with
  | Eps => Never
  | Lit c' => if Ascii.eqb c c' then Eps else Never
  | Digit => if is_digit c then Eps else Never
  | Cat r1 r2 =>
      if nullable r1 then Alt (Cat (deriv c r1) r2) (deriv c r2)
      else Cat (deriv c r1) r2
  | Alt r1 r2 => Alt (deriv c r1) (deriv c r2)
  | Star r' => Cat (deriv c r') (Star r')
  | Never => Never
  end.

Fixpoint fullmatch (r : regex) (s : string) : bool :=
  match s with
  | EmptyString => nullable r
  | String c s' => fullmatch (deriv c r) s'
  end.

(** The characters that can occur in a match. *)
Fixpoint alphabet (r : regex) (c : ascii) : bool :=
  match r with
  | Eps => false
  | Lit c' => Ascii.eqb c c'
  | Digit => is_digit c
  | Cat r1 r2 => alphabet r1 c || alphabet r2 c
  | Alt r1 r2 => alphabet r1 c || alphabet r2 c
  | Star r' => alphabet r' c
  | Never => false
  end.

(** [s] without its last character, when that is a line feed. *)
Fixpoint chomp (s : string) : option string :=
  match s with
  | EmptyString => None
  | String c EmptyString => if Ascii.eqb c (ascii_of_N 10) then Some "" else None
  | String c s' => String c <$> chomp s'
  end.

(** What [^r$] matches of [s] from its start: all of [s], or all of it but
    a final line feed, since [$] also matches just before a line feed that
    ends the string. The patterns below match no line feed, so at most one
    of the two applies. *)
Definition match_anchored (r : regex) (s : string) : option string :=
  if fullmatch r s then Some s
  else match chomp s with
       | Some s' => if fullmatch r s' then Some s' else None
       | None => None
       end.

End re.

(** * The patterns of BuildDeb.py, lines 206-214 *)

Module Patterns.
Import re.

(** [versionRxText = "(?:\d+\.){1,2}\d+(?:-rc\d+)?"] *)
Definition versionRx : regex :=
  Cat (Rep12 (Cat (Plus Digit) (Lit ".")))
      (Cat (Plus Digit) (Opt (Cat (Text "-rc") (Plus Digit)))).

Definition platformMarker : string := "Linux-x86_64".
Definition hashFuncName : string := "SHA-256".

(** [vmTagRx = re.compile("^v(" + versionRxText + ")$")]; group 1 is the
    version. *)
Definition vmTagRx : GitHubAPI.Pattern := λ s,
  match s with
  | String c rest =>
      if Ascii.eqb c "v" then (λ version, [version]) <$> match_anchored versionRx rest
      else None
  | EmptyString => None
  end.

(** ["-".join(("cmake", versionRxText, platformMarker)) + "\.tar\.gz"] *)
Definition downloadFileNameRxBody : regex :=
  Cat (Text "cmake-") (Cat versionRx (Cat (Text ("-" +:+ platformMarker)) (Text ".tar.gz"))).
Definition downloadFileNameRx : GitHubAPI.Pattern := λ s,
  (λ _, []) <$> match_anchored downloadFileNameRxBody s.

(** [hashesFileNameRxText = "-".join(("cmake", versionRxText, hashFuncName)) + "\.txt"] *)
Definition hashesFileNameRxBody : regex :=
  Cat (Text "cmake-") (Cat versionRx (Cat (Text ("-" +:+ hashFuncName)) (Text ".txt"))).
Definition hashesFileNameRx : GitHubAPI.Pattern := λ s,
  (λ _, []) <$> match_anchored hashesFileNameRxBody s.

(** [hashesSigFileNameRxText = hashesFileNameRxText + "\.(?:asc|sig|gpg)"] *)
Definition hashesSigFileNameRxBody : regex :=
  Cat hashesFileNameRxBody
      (Cat (Lit ".") (Alt (Text "asc") (Alt (Text "sig") (Text "gpg")))).
Definition hashesSigFileNameRx : GitHubAPI.Pattern := λ s,
  (λ _, []) <$> match_anchored hashesSigFileNameRxBody s.

(** [candidateDirRx = re.compile("^cmake-" + versionRxText + "$")] *)
Definition candidateDirRxBody : regex := Cat (Text "cmake-") versionRx.
Definition candidateDirRx : GitHubAPI.Pattern := λ s,
  (λ _, []) <$> match_anchored candidateDirRxBody s.

(** The role patterns [doBuild] hands to [getTargets] (lines 263-267). *)
Definition roles : gmap (option string) GitHubAPI.Pattern :=
  {[ Some "binary" := downloadFileNameRx ;
     Some "hashes" := hashesFileNameRx ;
     Some "hashesSig" := hashesSigFileNameRx ]}.

End Patterns.

(** * BuildDeb.py: selecting the release and finding the data directory *)

Module Build.
Import GitHubAPI pathlib BuildDeb.

(** Lines 263-269: the targets of the CMake repository and the latest of
    them. The result keeps the list, of which line 304 reads the first
    element. *)
Definition doBuild_select (t : Response) : result (list DownloadTarget * DownloadTarget) :=
  tgts ← getTargets t None Patterns.vmTagRx (inr Patterns.roles) ;
  selectedTarget ← max tgts ;
  Ok (tgts, selectedTarget).

(** Line 304: the version handed to [ripCMakePackage], [tgts[0].version]. *)
Definition doBuild_packageVersion (tgts : list DownloadTarget) : result string :=
  match tgts with
  | first :: _ => Ok (version first)
  | [] => Raise (IndexError "list index out of range")
  end.

(** Lines 253-257 and 296: [thisDir / "CMake_unpacked"] and, below it, the
    directory the archive unpacks to. *)
Definition thisDir : PurePath := PurePath_of ".".
Definition unpackDir : PurePath := joinpath thisDir (PurePath_of "CMake_unpacked").
Definition cmakeUnpackedRoot (selectedTarget : DownloadTarget) : PurePath :=
  joinpath unpackDir
    (PurePath_of ("cmake-" +:+ version selectedTarget +:+ "-" +:+ Patterns.platformMarker)).

(** [Path.is_dir()] *)
Definition is_dir (cwd : list string) (t : gmap (list string) node) (p : PurePath) : bool :=
  match walk t [] (names (absolute cwd p)) with
  | Some loc => is_dir_at t loc
  | None => false
  end.

(** [Path.iterdir()]: the children of [p], one for each name the operating
    system lists for it, in the order it lists them. *)
Definition iterdir (listdir : PurePath → result (list string)) (p : PurePath)
    : result (list PurePath) :=
  match listdir p with
  | Ok entries => Ok (List.map (λ entry, {| root := root p; names := names p ++ [entry] |}) entries)
  | Raise e => Raise e
  end.

(** The loop of [findCMakeDataDir]. *)
Fixpoint findCMakeDataDir_loop (cwd : list string) (t : gmap (list string) node)
    (cands : list PurePath) : option PurePath :=
  match cands with
  | [] => None
  | cand :: cands' =>
      if is_dir cwd t cand then
        if bool_decide (is_Some (Patterns.candidateDirRx (pathlib.name cand))) then Some cand
        else findCMakeDataDir_loop cwd t cands'
      else findCMakeDataDir_loop cwd t cands'
  end.

Definition findCMakeDataDir (cwd : list string) (t : gmap (list string) node)
    (listdir : PurePath → result (list string)) (cmakeUnpackedRoot : PurePath)
    : result (option PurePath) :=
  cands ← iterdir listdir (joinpath cmakeUnpackedRoot (PurePath_of "share")) ;
  Ok (findCMakeDataDir_loop cwd t cands).

(** Lines 298-299: the entry appended to the ["other"] list of the data
    package. *)
Definition doBuild_dataDirEntry (cwd : list string) (t : gmap (list string) node)
    (listdir : PurePath → result (list string)) (cmakeUnpackedRoot : PurePath)
    : result string :=
  cmakeDataDir ← findCMakeDataDir cwd t listdir cmakeUnpackedRoot ;
  match cmakeDataDir with
  | None => Raise (AttributeError "'NoneType' object has no attribute 'relative_to'")
  | Some cmakeDataDir =>
      rel ← relative_to cmakeDataDir cmakeUnpackedRoot ;
      Ok (str rel)
  end.

End Build.

(** * BuildDeb.py: [ripCMakePackage]

    Modelled from the spec: [Package] belongs to pydebhelper, which is not
    part of this repository. The spec describes it as the package-assembly
    collaborator that receives, for each package, its name and version and
    file-rip instructions from a source path to a destination path. It is
    represented here by the calls made on it: the constructor, [rip] and
    [copy], each on a package handle, numbered in the order of construction.
    The calls return normally, [with ... as pkg] binds the package, and
    leaving the [with] block lets an exception through. Constructor arguments
    that are the same in every call (directories, maintainer, section, home
    page, the remaining keys of the configuration) are left out. *)

Module Packaging.
Import pathlib.

Inductive call : Type :=
| Package (handle : nat) (pkgName version : string)
| rip (handle : nat) (src : PurePath) (dst : string)
| copy (handle : nat) (src : PurePath) (dst : string).

(** What ends [ripCMakePackage] early: an exception of the code under it,
    or the use of [pkg] before any package was bound to it. *)
Inductive raised : Type :=
| Reraised (e : exn)
| UnboundLocalError (variable : string).

(** The ["rip"] entry of a package's configuration; each key may be absent.
    A man page is a name, or [None] for the whole section, and a section. *)
Record RipCfg : Type := mkRipCfg {
  other : option (list string);
  bin : option (list string);
  man : option (list (option string * Z)) }.

Definition ourCMakePrefix : string := "vanilla-cmake".

(** [config], lines 29-84, with the keys read by [ripCMakePackage]. *)
Definition config : list (string * option RipCfg) :=
  [ (ourCMakePrefix,
     Some (mkRipCfg None (Some ["cmake"; "cpack"; "ctest"])
             (Some [(Some "cmake", 1); (Some "cpack", 1); (Some "ctest", 1); (None, 7)]))) ;
    (ourCMakePrefix +:+ "-curses",
     Some (mkRipCfg None (Some ["ccmake"]) (Some [(Some "ccmake", 1)]))) ;
    (ourCMakePrefix +:+ "-qt-gui",
     Some (mkRipCfg (Some ["share/applications"; "share/icons"; "share/mime"])
             (Some ["cmake-gui"]) (Some [(Some "cmake-gui", 1)]))) ;
    (ourCMakePrefix +:+ "-data",
     Some (mkRipCfg (Some ["share/aclocal"]) None None)) ].

(** Calls made so far, and the exception that stopped them, if any. *)
Definition emit (c : call) : list call * option raised := ([c], None).

Definition andthen (a b : list call * option raised) : list call * option raised :=
  match a with
  | (tr, None) => (tr ++ b.1, b.2)
  | (tr, Some e) => (tr, Some e)
  end.

Fixpoint each {A} (body : A → list call * option raised) (l : list A)
    : list call * option raised :=
  match l with
  | [] => ([], None)
  | x :: l' => andthen (body x) (each body l')
  end.

(** Lines 107-115, for one entry of ["man"]. *)
Definition rip_man (listdir : PurePath → result (list string)) (unpackedDir : PurePath)
    (pkg : nat) (entry : option string * Z) : list call * option raised :=
  let '(name, section) := entry in
  let sectionDir := "man/man" +:+ pretty section in
  match BuildDeb.truthy name with
  | Some name =>
      let a := sectionDir +:+ "/" +:+ name +:+ "." +:+ pretty section in
      let aUnp := joinpath unpackedDir (PurePath_of a) in
      emit (rip pkg aUnp ("usr/share/" +:+ a))
  | None =>
      match Build.iterdir listdir (joinpath unpackedDir (PurePath_of sectionDir)) with
      | Raise e => ([], Some (Reraised e))
      | Ok manFs =>
          each (λ manF,
              match relative_to manF unpackedDir with
              | Raise e => ([], Some (Reraised e))
              | Ok rel => emit (rip pkg manF ("usr/share/" +:+ str rel))
              end) manFs
      end
  end.

(** Lines 96-117: the body of the [with] block of one package. *)
Definition rip_package (listdir : PurePath → result (list string))
    (unpackedDir licenseFilePath : PurePath) (pkg : nat) (pkgName : string) (r : RipCfg)
    : list call * option raised :=
  andthen
    (each (λ el, emit (rip pkg (joinpath unpackedDir (PurePath_of el)) ("usr/" +:+ el)))
       (default [] (other r)))
  (andthen
    (each (λ el,
         let a := "bin/" +:+ el in
         let aUnp := joinpath unpackedDir (PurePath_of a) in
         emit (rip pkg aUnp ("usr/" +:+ a)))
       (default [] (bin r)))
  (andthen
    (each (rip_man listdir unpackedDir pkg) (default [] (man r)))
    (emit (copy pkg licenseFilePath ("usr/share/doc/" +:+ pkgName +:+ "/copyright"))))).

(** The loop of lines 90-118. The state is the number of packages made, the
    package [pkg] is bound to, and [results]. *)
Fixpoint ripCMakePackage_loop (listdir : PurePath → result (list string))
    (unpackedDir licenseFilePath : PurePath) (version : string)
    (config : list (string * option RipCfg))
    (made : nat) (pkg : option nat) (results : gmap string nat)
    : list call * (raised + (nat * option nat * gmap string nat)) :=
  match config with
  | [] => ([], inr (made, pkg, results))
  | (pkgName, pkgCfg) :: config' =>
      match pkgCfg with
      | None => ([], inl (Reraised (KeyError "rip")))
      | Some r =>
          match andthen (emit (Package made pkgName version))
                  (rip_package listdir unpackedDir licenseFilePath made pkgName r) with
          | (tr, Some e) => (tr, inl e)
          | (tr, None) =>
              let '(tr', out) :=
                ripCMakePackage_loop listdir unpackedDir licenseFilePath version config'
                  (S made) (Some made) (<[pkgName := made]> results) in
              (tr ++ tr', out)
          end
      end
  end.

(** [ripCMakePackage]: the calls made and the exception that ended them, or
    [results], which maps each package name to its package. *)
Definition ripCMakePackage (config : list (string * option RipCfg))
    (listdir : PurePath → result (list string))
    (unpackedDir licenseFilePath : PurePath) (version : string)
    : list call * (raised + gmap string nat) :=
  match ripCMakePackage_loop listdir unpackedDir licenseFilePath version config 0 None ∅ with
  | (tr, inl e) => (tr, inl e)
  | (tr, inr (made, pkg, results)) =>
      let docPkg := made in
      let tr := tr ++ [Package docPkg (ourCMakePrefix +:+ "-doc") version] in
      match pkg with
      | None => (tr, inl (UnboundLocalError "pkg"))
      | Some pkg =>
          (tr ++ [rip pkg (joinpath unpackedDir (PurePath_of "doc")) "usr/share/doc"],
           inr (<[ourCMakePrefix +:+ "-doc" := docPkg]> results))
      end
  end.

(** The package a call is made on. *)
Definition handle_of (c : call) : nat :=
  match c with
  | Package handle _ _ | rip handle _ _ | copy handle _ _ => handle
  end.

(** The call gives the package files. *)
Definition gives_files (c : call) : bool :=
  match c with
  | Package _ _ _ => false
  | rip _ _ _ | copy _ _ _ => true
  end.

End Packaging.

(** * More vocabulary *)

Module Spec2.

(** The child [entry] of directory [dir], as [iterdir] makes it. *)
Definition child (dir : pathlib.PurePath) (entry : string) : pathlib.PurePath :=
  {| pathlib.root := pathlib.root dir; pathlib.names := pathlib.names dir ++ [entry] |}.

(** The test of [findCMakeDataDir] on the entry [entry] of [dir]. *)
Definition is_data_dir (cwd : list string) (t : gmap (list string) BuildDeb.node)
    (dir : pathlib.PurePath) (entry : string) : bool :=
  Build.is_dir cwd t (child dir entry) && bool_decide (is_Some (Patterns.candidateDirRx entry)).

(** The last character of a string. *)
Fixpoint last_char (s : string) : option ascii :=
  match s with
  | EmptyString => None
  | String c EmptyString => Some c
  | String _ s' => last_char s'
  end.


(** A manifest with lines ended by carriage return and line feed. *)
Fixpoint render_crlf (entries : list Spec.ManifestLine) : string :=
  match entries with
  | [] => ""
  | e :: entries' =>
      Spec.render_line e +:+ String BuildDeb.CR (String BuildDeb.LF (render_crlf entries'))
  end.

End Spec2.

(** * Properties *)

(** ** Results *)

Lemma for_each_app {A S} (body : S → A → result S) l1 l2 s :
  for_each body (l1 ++ l2) s = (for_each body l1 s ≫= for_each body l2).
Proof.
  revert s; induction l1 as [|x l1 IH]; intros s; simpl; [done|].
  destruct (body s x); simpl; auto.
Qed.

(** ** The order on download targets *)

Section Ordering.
Import GitHubAPI.
Context {T : Type} `{ComparableDownloadTarget T}.

Ltac lex :=
  unfold __gt__, __lt__, __eq__, tuple_gt, tuple_lt, tuple_eq in *;
  repeat match goal with
  | p : (datetime * datetime)%type |- _ => destruct p; simpl in *
  | |- context [cmpTuple ?a] => destruct (cmpTuple a); simpl in *
  | H : context [cmpTuple ?a] |- _ => destruct (cmpTuple a); simpl in *
  | |- context [?x =? ?y] => destruct (Z.eqb_spec x y)
  | H : context [?x =? ?y] |- _ => destruct (Z.eqb_spec x y)
  end;
  simpl in *; rewrite ?Z.gtb_ltb in *; rewrite ?Z.ltb_lt, ?Z.ltb_ge in *.

Lemma gt_lexicographic (a b : T) :
  __gt__ a b = true ↔
  ((cmpTuple b).1 < (cmpTuple a).1 ∨
   ((cmpTuple a).1 = (cmpTuple b).1 ∧ (cmpTuple b).2 < (cmpTuple a).2)).
Proof. lex; lia. Qed.

Lemma lt_is_gt_swapped (a b : T) : __lt__ a b = __gt__ b a.
Proof. lex; try lia; reflexivity. Qed.

Lemma eq_same_key (a b : T) : __eq__ a b = true ↔ cmpTuple a = cmpTuple b.
Proof.
  unfold __eq__, tuple_eq. destruct (cmpTuple a), (cmpTuple b); simpl.
  rewrite andb_true_iff, !Z.eqb_eq. split; [intros []; congruence | intros [=]; auto].
Qed.

Lemma gt_trans (a b c : T) : __gt__ a b = true → __gt__ b c = true → __gt__ a c = true.
Proof. rewrite !gt_lexicographic. lia. Qed.

Lemma not_gt_trans (a b c : T) :
  __gt__ a b = false → __gt__ b c = false → __gt__ a c = false.
Proof.
  rewrite <- !not_true_iff_false, !gt_lexicographic.
  generalize (cmpTuple a) (cmpTuple b) (cmpTuple c).
  intros [] [] []; simpl. lia.
Qed.

Lemma gt_irrefl (a : T) : __gt__ a a = false.
Proof. apply not_true_iff_false. rewrite gt_lexicographic. lia. Qed.

Lemma gt_not_le (a b : T) : __gt__ a b = true → __gt__ b a = false.
Proof.
  intros Hgt. apply not_true_iff_false. revert Hgt. rewrite !gt_lexicographic. lia.
Qed.

Lemma trichotomy (a b : T) :
  (__lt__ a b = true ∧ __eq__ a b = false ∧ __gt__ a b = false) ∨
  (__lt__ a b = false ∧ __eq__ a b = true ∧ __gt__ a b = false) ∨
  (__lt__ a b = false ∧ __eq__ a b = false ∧ __gt__ a b = true).
Proof.
  lex; rewrite <- ?not_true_iff_false, ?Z.eqb_eq, ?Z.ltb_lt; lia.
Qed.

(** The running maximum of [max] dominates everything seen so far. *)
Lemma max_loop_spec (l : list T) (x : T) :
  let m := foldl (λ maxitem item, if __gt__ item maxitem then item else maxitem) x l in
  m ∈ x :: l ∧ __gt__ x m = false ∧ ∀ y, y ∈ l → __gt__ y m = false.
Proof.
  revert x; induction l as [|item l IH]; intros x; simpl.
  - split; [left|]. split; [apply gt_irrefl|]. intros y Hy; inversion Hy.
  - destruct (__gt__ item x) eqn:Hgt.
    + destruct (IH item) as (Hin & Hitem & Hall).
      split; [by right|]. split.
      * eapply not_gt_trans; [apply gt_not_le; exact Hgt | exact Hitem].
      * intros y [-> | Hy]%elem_of_cons; auto.
    + destruct (IH x) as (Hin & Hx & Hall).
      split.
      * apply elem_of_cons in Hin as [-> | Hin]; [left | right; by right].
      * split; [exact Hx|].
        intros y [-> | Hy]%elem_of_cons; auto.
        eapply not_gt_trans; [exact Hgt | exact Hx].
Qed.

End Ordering.

Section Latest.
Import GitHubAPI.

(** C5. The comparison that selects the latest release orders targets by
    the pair (created, published), lexicographically: [a > b] exactly when
    [a] was created later, or at the same instant and published later. The
    three comparison methods agree with one another, [>] is transitive and
    exactly one of [<], [==], [>] holds of any two targets, so [max] of a
    non-empty list of targets returns a member that no member exceeds. *)
Theorem latest_is_max_by_created_then_published :
  (∀ a b : DownloadTarget,
     __gt__ a b = true ↔
     (created b < created a ∨
      (created a = created b ∧
       published b < published a))) ∧
  (∀ a b : DownloadTarget, __lt__ a b = __gt__ b a) ∧
  (∀ a b : DownloadTarget,
     __eq__ a b = true ↔
     (created a = created b ∧
      published a = published b)) ∧
  (∀ a b c : DownloadTarget,
     __gt__ a b = true → __gt__ b c = true →
     __gt__ a c = true) ∧
  (∀ a b : DownloadTarget,
     (__lt__ a b = true ∧ __eq__ a b = false ∧
      __gt__ a b = false) ∨
     (__lt__ a b = false ∧ __eq__ a b = true ∧
      __gt__ a b = false) ∨
     (__lt__ a b = false ∧ __eq__ a b = false ∧
      __gt__ a b = true)) ∧
  (∀ (t : DownloadTarget) (tgts : list DownloadTarget),
     ∃ m, max (t :: tgts) = Ok m ∧ m ∈ t :: tgts ∧
          ∀ x, x ∈ t :: tgts → __gt__ x m = false).
Proof.
  repeat apply conj.
  - intros a b. exact (gt_lexicographic a b).
  - apply lt_is_gt_swapped.
  - intros a b. rewrite eq_same_key. simpl. split; [intros [=]; auto | intros [-> ->]; done].
  - apply gt_trans.
  - apply trichotomy.
  - intros t tgts. eexists; split; [reflexivity|].
    destruct (max_loop_spec tgts t) as (Hin & Ht & Hall).
    split; [exact Hin|]. intros x [-> | Hx]%elem_of_cons; auto.
Qed.

End Latest.

(** ** Which releases become targets *)

Section Targets.
Import GitHubAPI Spec.

Implicit Types (rxs : gmap (option string) Pattern) (a : Asset) (r : Release).

Lemma match_asset_lookup rxs a files role :
  match_asset rxs a files !! role =
  match rxs !! role with
  | Some rx => if matches rx a then Some (file_of role a) else files !! role
  | None => files !! role
  end.
Proof.
  unfold match_asset. revert role.
  apply (map_fold_weak_ind (λ res m, ∀ role, res !! role =
    match m !! role with
    | Some rx => if matches rx a then Some (file_of role a) else files !! role
    | None => files !! role
    end)).
  - intros role. by rewrite lookup_empty.
  - intros i rx m res Hi IH role.
    destruct (decide (i = role)) as [->|Hne].
    + rewrite lookup_insert_eq. unfold matches.
      destruct (rx (asset_name a)) as [g|] eqn:Hrx.
      * rewrite lookup_insert_eq. rewrite bool_decide_eq_true_2 by eauto. done.
      * rewrite bool_decide_eq_false_2 by (intros [? ?]; discriminate).
        rewrite IH, Hi. done.
    + rewrite (lookup_insert_ne m) by done.
      destruct (rx (asset_name a)); [rewrite lookup_insert_ne by done|]; apply IH.
Qed.

(** Each role holds the last asset, in the order of the release, that its
    pattern matches. *)
Lemma collect_files_lookup rxs (assets : list Asset) role :
  collect_files rxs assets !! role =
  rx ← rxs !! role ; file_of role <$> last (List.filter (matches rx) assets).
Proof.
  unfold collect_files.
  induction assets as [|a assets IH] using rev_ind.
  - simpl. rewrite lookup_empty. by destruct (rxs !! role).
  - rewrite foldl_app. simpl. rewrite match_asset_lookup, IH.
    destruct (rxs !! role) as [rx|]; simpl; [|done].
    rewrite List.filter_app. simpl.
    destruct (matches rx a); simpl.
    + by rewrite last_snoc.
    + by rewrite app_nil_r.
Qed.

Lemma last_filter_is_Some {A} (f : A → bool) (l : list A) :
  is_Some (last (List.filter f l)) ↔ ∃ x, x ∈ l ∧ f x = true.
Proof.
  rewrite last_is_Some. split.
  - intros Hne. destruct (List.filter f l) as [|x l'] eqn:Hf; [done|].
    exists x. rewrite list_elem_of_In. apply List.filter_In. rewrite Hf. by left.
  - intros (x & Hx & Hfx) Hnil.
    assert (In x (List.filter f l)) as Hin
      by (apply List.filter_In; split; [by apply list_elem_of_In | done]).
    rewrite Hnil in Hin. destruct Hin.
Qed.

Lemma collect_files_dom_subseteq rxs (assets : list Asset) :
  dom (collect_files rxs assets) ⊆ dom rxs.
Proof.
  intros role. rewrite !elem_of_dom, collect_files_lookup.
  destruct (rxs !! role); simpl; [eauto | intros [? ?]; discriminate].
Qed.

(** [len(files) == len(downloadFileNamesRxs)] holds exactly when every role
    has an asset that its pattern matches. *)
Lemma collect_files_complete rxs (assets : list Asset) :
  size (collect_files rxs assets) = size rxs ↔
  ∀ role rx, rxs !! role = Some rx → ∃ a, a ∈ assets ∧ matches rx a = true.
Proof.
  rewrite <- !size_dom. split.
  - intros Hsize role rx Hrx.
    assert (dom (collect_files rxs assets) = dom rxs) as Hdom.
    { apply set_subseteq_size_eq; [apply collect_files_dom_subseteq | lia]. }
    assert (role ∈ dom (collect_files rxs assets)) as Hin
      by (rewrite Hdom; apply elem_of_dom; eauto).
    apply elem_of_dom in Hin. rewrite collect_files_lookup, Hrx in Hin. simpl in Hin.
    apply fmap_is_Some, last_filter_is_Some in Hin. exact Hin.
  - intros Hall. f_equal. apply leibniz_equiv. apply set_equiv. intros role.
    rewrite !elem_of_dom, collect_files_lookup.
    destruct (rxs !! role) as [rx|] eqn:Hrx; simpl.
    + rewrite fmap_is_Some, last_filter_is_Some. split; eauto.
    + split; intros [? ?]; discriminate.
Qed.

End Targets.

Section Yields.
Import GitHubAPI Spec.

Implicit Types (rxs : gmap (option string) Pattern) (r : Release).

Lemma getTargets_release_Some titleRx tagRx rxs r tgt :
  getTargets_release titleRx tagRx rxs r = Ok (Some tgt) ↔
  title_ok titleRx r ∧
  ∃ v gs, tagRx (release_tag_name r) = Some (v :: gs) ∧
          every_role_matched rxs r ∧ tgt = target_of rxs r v.
Proof.
  unfold getTargets_release, title_ok, every_role_matched.
  setoid_rewrite <- collect_files_complete.
  destruct titleRx as [rx|]; simpl;
    [destruct (rx (release_name r)) as [g|]; simpl|];
    try (split; [discriminate | intros ([? ?] & _); discriminate]);
    (destruct (tagRx (release_tag_name r)) as [[|v gs]|]; simpl;
     [split; [discriminate | intros (_ & ? & ? & Heq & _); discriminate Heq]
     | unfold target_of; case_bool_decide as Hsz; split;
       [ intros Heq; inversion Heq; split; [first [exact I | by eexists]|];
         exists v, gs; done
       | intros (_ & v' & gs' & Heq & _ & ->); inversion Heq; reflexivity
       | discriminate
       | intros (_ & v' & gs' & _ & Hsz' & _); contradiction ]
     | split; [discriminate | intros (_ & ? & ? & Heq & _); discriminate Heq]]).
Qed.

Lemma getTargets_release_total titleRx tagRx rxs r :
  (∀ s gs, tagRx s = Some gs → gs ≠ []) →
  ∃ y, getTargets_release titleRx tagRx rxs r = Ok y.
Proof.
  intros Htag. unfold getTargets_release.
  destruct (match titleRx with Some rx => _ | None => false end); [eauto|].
  destruct (tagRx (release_tag_name r)) as [[|v gs]|] eqn:Hm; [|simpl|eauto].
  - by apply Htag in Hm.
  - case_bool_decide; eauto.
Qed.

Lemma getTargets_loop_spec titleRx tagRx rxs (t : list Release) yielded :
  (∀ s gs, tagRx s = Some gs → gs ≠ []) →
  ∃ out,
    for_each (λ yielded r,
        y ← getTargets_release titleRx tagRx rxs r ; Ok (yielded ++ option_list y))
      t yielded = Ok out ∧
    ∀ tgt, tgt ∈ out ↔
           tgt ∈ yielded ∨
           ∃ r, r ∈ t ∧ getTargets_release titleRx tagRx rxs r = Ok (Some tgt).
Proof.
  intros Htag. revert yielded.
  induction t as [|r t IH]; intros yielded; simpl.
  - exists yielded. split; [done|]. intros tgt. split; [auto|].
    intros [?|(r & Hr & _)]; [done | inversion Hr].
  - destruct (getTargets_release_total titleRx tagRx rxs r Htag) as [y Hy].
    rewrite Hy. simpl.
    destruct (IH (yielded ++ option_list y)) as (out & Hout & Hiff).
    exists out. split; [exact Hout|]. intros tgt. rewrite Hiff, elem_of_app.
    split.
    + intros [[?|Hin]|(r' & Hr' & Hyr')]; [by left | |].
      * right. exists r. split; [left|].
        destruct y; simpl in Hin; [|inversion Hin].
        apply list_elem_of_singleton in Hin as ->. exact Hy.
      * right. exists r'. split; [by right|done].
    + intros [?|(r' & [->|Hr']%elem_of_cons & Hyr')]; [by left; left | |].
      * left; right. rewrite Hy in Hyr'. injection Hyr' as ->. simpl. left.
      * right. eauto.
Qed.

(** C4, as the code has it. Provided the tag pattern has a group 1,
    [getTargets] returns, and it yields a target for a release exactly when
    the release passes the title and tag filters and every role has at least
    one asset that its pattern matches. The target then holds one file per
    role and no others ([len(files) == len(downloadFileNamesRxs)]), and the
    file of a role is the last asset of the release that the role's pattern
    matches: a role matched by several assets does not disqualify the
    release. *)
Theorem getTargets_yields_iff_every_role_has_an_asset
    (titleRx : option Pattern) (tagRx : Pattern) rxs (t : list Release) :
  (∀ s gs, tagRx s = Some gs → gs ≠ []) →
  ∃ out,
    getTargets (Releases t) titleRx tagRx (inr rxs) = Ok out ∧
    (∀ tgt, tgt ∈ out ↔
       ∃ r v gs, r ∈ t ∧ title_ok titleRx r ∧
                 tagRx (release_tag_name r) = Some (v :: gs) ∧
                 every_role_matched rxs r ∧ tgt = target_of rxs r v) ∧
    (∀ tgt, tgt ∈ out →
       size (files tgt) = size rxs ∧ dom (files tgt) = dom rxs) ∧
    (∀ r v role rx, rxs !! role = Some rx →
       files (target_of rxs r v) !! role =
       file_of role <$> last (List.filter (matches rx) (release_assets r))).
Proof.
  intros Htag.
  destruct (getTargets_loop_spec titleRx tagRx rxs t [] Htag) as (out & Hout & Hiff).
  exists out. split; [exact Hout|].
  assert (∀ tgt, tgt ∈ out ↔
     ∃ r v gs, r ∈ t ∧ title_ok titleRx r ∧
               tagRx (release_tag_name r) = Some (v :: gs) ∧
               every_role_matched rxs r ∧ tgt = target_of rxs r v) as Hspec.
  { intros tgt. rewrite Hiff. split.
    - intros [Hnil|(r & Hr & Hy)]; [inversion Hnil|].
      apply getTargets_release_Some in Hy as (Htitle & v & gs & Hm & Hall & ->).
      exists r, v, gs. done.
    - intros (r & v & gs & Hr & Htitle & Hm & Hall & ->).
      right. exists r. split; [done|].
      apply getTargets_release_Some. split; [done|]. exists v, gs. done. }
  split; [exact Hspec|]. split.
  - intros tgt (r & v & gs & _ & _ & _ & Hall & ->)%Hspec. simpl.
    apply collect_files_complete in Hall. split; [exact Hall|].
    apply set_subseteq_size_eq; [apply collect_files_dom_subseteq|].
    rewrite !size_dom. lia.
  - intros r v role rx Hrx. simpl. rewrite collect_files_lookup, Hrx. done.
Qed.

Lemma getTargets_yields_iff_every_role_has_an_asset_witness :
  ∃ out,
    getTargets (Releases [Sample.two_binaries; Sample.no_hashes]) None Sample.v_tag
      (inr Sample.roles) = Ok out ∧
    (∀ tgt, tgt ∈ out ↔
       ∃ r v gs, r ∈ [Sample.two_binaries; Sample.no_hashes] ∧ title_ok None r ∧
                 Sample.v_tag (release_tag_name r) = Some (v :: gs) ∧
                 every_role_matched Sample.roles r ∧ tgt = target_of Sample.roles r v) ∧
    (∀ tgt, tgt ∈ out →
       size (files tgt) = size Sample.roles ∧ dom (files tgt) = dom Sample.roles) ∧
    (∀ r v role rx, Sample.roles !! role = Some rx →
       files (target_of Sample.roles r v) !! role =
       file_of role <$> last (List.filter (matches rx) (release_assets r))).
Proof.
  apply (getTargets_yields_iff_every_role_has_an_asset None Sample.v_tag Sample.roles
           [Sample.two_binaries; Sample.no_hashes]).
  intros [|c s] gs; simpl; [discriminate|].
  destruct (Ascii.eqb c "v"); [intros [= <-]; discriminate | discriminate].
Defined.

(** C4 as stated fails: a release in which two assets match the pattern of
    the role ["binary"] is yielded all the same, with the later asset as the
    role's file. *)
Lemma getTargets_yields_role_with_two_assets :
  ∃ tgt,
    getTargets (Releases [Sample.two_binaries]) None Sample.v_tag (inr Sample.roles)
      = Ok [tgt] ∧
    Sample.roles !! Some "binary" = Some (Sample.ends_with ".tar.gz") ∧
    length (List.filter (matches (Sample.ends_with ".tar.gz"))
              (release_assets Sample.two_binaries)) = 2%nat ∧
    file_uri <$> files tgt !! Some "binary" = Some "https://example.org/b.tar.gz".
Proof.
  eexists. split; [vm_compute; reflexivity|].
  split; [reflexivity|]. split; vm_compute; reflexivity.
Qed.

End Yields.

(** ** Paths *)

Section Paths.
Import pathlib BuildDeb Spec.

Lemma normalize_aux_no_dotdot (l stack : list string) :
  ".." ∉ stack → ".." ∉ normalize_aux stack l.
Proof.
  revert stack; induction l as [|c l IH]; intros stack Hstack; simpl.
  - intros Hin%list_elem_of_In%in_rev%list_elem_of_In. done.
  - destruct (String.eqb_spec c "..") as [->|Hc]; apply IH.
    + destruct stack; simpl; [done|]. by apply not_elem_of_cons in Hstack as [_ ?].
    + apply not_elem_of_cons. auto.
Qed.

Lemma normalize_no_dotdot (l : list string) : ".." ∉ normalize l.
Proof. apply normalize_aux_no_dotdot. apply not_elem_of_nil. Qed.

(** A path without [".."] is left as it is. *)
Lemma normalize_aux_id (l stack : list string) :
  ".." ∉ l → normalize_aux stack l = rev stack ++ l.
Proof.
  revert stack; induction l as [|c l IH]; intros stack Hl; simpl.
  - by rewrite app_nil_r.
  - apply not_elem_of_cons in Hl as [Hc Hl].
    destruct (String.eqb_spec c "..") as [->|_]; [done|].
    rewrite IH by done. simpl. by rewrite <- app_assoc.
Qed.

Lemma normalize_idem (l : list string) : normalize (normalize l) = normalize l.
Proof. unfold normalize at 1. rewrite normalize_aux_id; [done | apply normalize_no_dotdot]. Qed.

Lemma drop_prefix_Some (pre l rest : list string) :
  drop_prefix pre l = Some rest ↔ l = pre ++ rest.
Proof.
  revert l; induction pre as [|x pre IH]; intros l; simpl.
  - split; [intros [= ->]; done | intros ->; done].
  - destruct l as [|y l]; [split; discriminate|].
    destruct (String.eqb_spec x y) as [->|Hne].
    + rewrite IH. split; [intros ->; done | intros [= ->]; done].
    + split; [discriminate | intros [= ? _]; done].
Qed.

Lemma relative_to_inside (self other : PurePath) :
  inside other self →
  ∃ rest, names self = names other ++ rest ∧
          relative_to self other = Ok {| root := ""; names := rest |}.
Proof.
  intros [Hroot [rest Hrest]]. exists rest. split; [done|].
  unfold relative_to. rewrite Hroot, String.eqb_refl.
  apply drop_prefix_Some in Hrest. by rewrite Hrest.
Qed.

Lemma relative_to_outside (self other : PurePath) :
  ¬ inside other self →
  relative_to self other = Raise (ValueError_relative_to (str self) (str other)).
Proof.
  intros Hout. unfold relative_to.
  destruct (String.eqb_spec (root self) (root other)) as [Hroot|Hroot]; [|done].
  destruct (drop_prefix (names other) (names self)) as [rest|] eqn:Hd; [|done].
  apply drop_prefix_Some in Hd. destruct Hout. split; eauto.
Qed.

Lemma relative_to_Ok (self other rel : PurePath) :
  relative_to self other = Ok rel →
  inside other self ∧ root rel = "" ∧ names self = names other ++ names rel.
Proof.
  unfold relative_to.
  destruct (String.eqb_spec (root self) (root other)) as [Hroot|Hroot]; [|discriminate].
  destruct (drop_prefix (names other) (names self)) as [rest|] eqn:Hd; [|discriminate].
  intros [= <-]. apply drop_prefix_Some in Hd. simpl. repeat split; eauto.
Qed.

Lemma absolute_rooted cwd (p : PurePath) : root (absolute cwd p) ≠ "".
Proof.
  unfold absolute, joinpath.
  destruct (String.eqb_spec (root p) ""); simpl; [discriminate | done].
Qed.

Lemma absolute_of_rooted cwd (p : PurePath) : root p ≠ "" → absolute cwd p = p.
Proof.
  intros Hp. unfold absolute, joinpath.
  by destruct (String.eqb_spec (root p) "").
Qed.

Lemma absolute_idem cwd (p : PurePath) : absolute cwd (absolute cwd p) = absolute cwd p.
Proof. apply absolute_of_rooted, absolute_rooted. Qed.

Lemma resolve_absolute cwd (p : PurePath) : resolve cwd (absolute cwd p) = resolve cwd p.
Proof. unfold resolve. by rewrite absolute_idem. Qed.

Lemma resolve_idem cwd (p : PurePath) : resolve cwd (resolve cwd p) = resolve cwd p.
Proof.
  unfold resolve at 1.
  rewrite absolute_of_rooted by (simpl; apply absolute_rooted).
  simpl. by rewrite normalize_idem.
Qed.

(** The loop of [isSubdir] finds no [".."] in what [relative_to] returns. *)
Lemma no_dotdot_parts (rel : PurePath) :
  root rel = "" → ".." ∉ names rel →
  existsb (λ p, String.eqb p "..") (parts rel) = false.
Proof.
  intros Hroot Hnames. unfold parts. rewrite Hroot. simpl.
  apply not_true_iff_false. rewrite existsb_exists.
  intros (x & Hx & ->%String.eqb_eq). by apply list_elem_of_In in Hx.
Qed.

Lemma isSubdir_spec cwd (parent child : PurePath) :
  (inside (resolve cwd parent) (resolve cwd child) ∧
   isSubdir cwd parent child = Ok true) ∨
  (¬ inside (resolve cwd parent) (resolve cwd child) ∧
   isSubdir cwd parent child =
     Raise (ValueError_relative_to (str (resolve cwd child)) (str (resolve cwd parent)))).
Proof.
  unfold isSubdir. rewrite !resolve_absolute.
  destruct (relative_to (resolve cwd child) (resolve cwd parent)) as [rel|e] eqn:Hrel.
  - left. apply relative_to_Ok in Hrel as (Hin & Hroot & Hnames).
    split; [done|]. simpl. rewrite no_dotdot_parts; [done | done |].
    intros Hdd. apply (normalize_no_dotdot (names (absolute cwd child))).
    change (".." ∈ names (resolve cwd child)). rewrite Hnames, elem_of_app. by right.
  - right.
    assert (¬ inside (resolve cwd parent) (resolve cwd child)) as Hout.
    { intros (rest & _ & Hr)%relative_to_inside. congruence. }
    split; [done|]. rewrite relative_to_outside in Hrel by done. simpl. congruence.
Qed.

End Paths.

(** ** The file system under [unpack] *)

Section Extraction.
Import pathlib BuildDeb Spec.

Implicit Types (t : gmap (list string) node) (st : State) (f : TarInfo).

Lemma walk_normalize t (l stack loc : list string) :
  walk t stack l = Some loc → loc = normalize_aux stack l.
Proof.
  revert stack; induction l as [|c l IH]; intros stack; simpl.
  - by intros [= <-].
  - destruct (is_dir_at t (rev stack)); [|discriminate].
    destruct (String.eqb c ".."); apply IH.
Qed.

Lemma file_at_insert_Dir t (loc q : list string) :
  t !! loc = None → file_at (<[loc := Dir]> t) q = file_at t q.
Proof.
  intros Hloc. unfold file_at. destruct (decide (loc = q)) as [<-|Hne].
  - by rewrite lookup_insert_eq, Hloc.
  - by rewrite lookup_insert_ne.
Qed.

(** Creating directories changes no regular file. *)
Lemma mkdir_aux_file_at (l stack : list string) t q :
  file_at (mkdir_aux stack l t).1 q = file_at t q.
Proof.
  revert stack t; induction l as [|c l IH]; intros stack t; simpl; [done|].
  destruct (String.eqb c ".."); [apply IH|].
  destruct (t !! rev (c :: stack)) as [[data|]|] eqn:Hloc; simpl in *; rewrite ?Hloc.
  - done.
  - apply IH.
  - rewrite IH. by apply file_at_insert_Dir.
Qed.

Lemma unlink_file_at t (p : PurePath) q :
  q ≠ normalize (names p) → file_at (unlink t p) q = file_at t q.
Proof.
  intros Hq. unfold unlink.
  destruct (walk t [] (names p)) as [loc|] eqn:Hwalk; [|done].
  apply walk_normalize in Hwalk. unfold file_at.
  rewrite lookup_delete_ne; [done|]. unfold normalize in Hq. congruence.
Qed.

Lemma extract_file_at cwd f (extrDir : PurePath) t t' q :
  extract cwd f extrDir t = Ok t' →
  q ≠ normalize (names (absolute cwd (destination extrDir f))) →
  file_at t' q = file_at t q.
Proof.
  unfold extract, destination. intros Hex Hq.
  destruct (walk t [] _) as [loc|] eqn:Hwalk; [|discriminate].
  apply walk_normalize in Hwalk. fold (normalize (names (absolute cwd
    (joinpath extrDir (PurePath_of (tar_name f)))))) in Hwalk. subst loc.
  destruct (tar_type f).
  - destruct (is_dir_at t _); [discriminate|]. injection Hex as <-.
    unfold file_at. by rewrite lookup_insert_ne.
  - destruct (t !! _) eqn:Hloc; injection Hex as <-; [done|].
    destruct (normalize _) eqn:Hn; [done|]. rewrite <- Hn in *.
    by apply file_at_insert_Dir.
Qed.

(** One member changes regular files only at or below the target
    directory, whether it is extracted or raises. *)
Lemma unpack_member_frame cwd (extrDir : PurePath) st f q :
  ¬ under (names (resolve cwd extrDir)) q →
  file_at (fs (unpack_member cwd extrDir st f).1) q = file_at (fs st) q.
Proof.
  intros Hq. unfold unpack_member.
  set (fp := absolute cwd (joinpath extrDir (PurePath_of (tar_name f)))).
  destruct (isSubdir_spec cwd extrDir fp) as [[Hin ->]|[_ ->]]; [|done].
  assert (q ≠ normalize (names fp)) as Hne.
  { intros ->. apply Hq. destruct Hin as [_ [rest Hrest]]. exists rest.
    rewrite <- Hrest. unfold fp. rewrite resolve_absolute. done. }
  set (t1 := if is_file (fs st) fp then unlink (fs st) fp else fs st).
  assert (file_at t1 q = file_at (fs st) q) as H1.
  { unfold t1. destruct (is_file (fs st) fp); [by apply unlink_file_at | done]. }
  unfold mkdir_parents.
  pose proof (mkdir_aux_file_at (names (parent fp)) [] t1 q) as H2.
  destruct (mkdir_aux [] (names (parent fp)) t1) as [t2 [[]|e]]; simpl in *;
    [|congruence].
  destruct (extract cwd f extrDir t2) as [t3|e] eqn:Hex; simpl; [|congruence].
  assert (file_at t3 q = file_at t2 q) as H3.
  { eapply extract_file_at; [exact Hex|]. exact Hne. }
  destruct (relative_to fp extrDir); simpl; congruence.
Qed.

Lemma unpack_members_frame cwd (extrDir : PurePath) (l : list TarInfo) st q :
  ¬ under (names (resolve cwd extrDir)) q →
  file_at (fs (unpack_members cwd extrDir l st).1) q = file_at (fs st) q.
Proof.
  intros Hq. revert st; induction l as [|f l IH]; intros st; simpl; [done|].
  pose proof (unpack_member_frame cwd extrDir st f q Hq) as Hf.
  destruct (unpack_member cwd extrDir st f) as [st' [[]|e]]; simpl in *; [|done].
  by rewrite IH.
Qed.








(** Whatever the archive holds and however [unpack] ends, no regular file
    outside the target directory is created, changed or removed. *)
Lemma unpack_frame cwd t (arch : Archive) (extrDir : PurePath) loc :
  ¬ under (names (resolve cwd extrDir)) loc →
  file_at (fs (unpack cwd t arch extrDir).1) loc = file_at t loc.
Proof.
  intros Hloc. unfold unpack. destruct (read_unpackedSize (raw arch)); [|done].
  rewrite unpack_members_frame by (by rewrite resolve_idem). done.
Qed.

(** The frame is about regular files: [mkdir(parents=True)] follows the
    destination as written, and a member that leaves the target directory
    and comes back makes a directory outside it. *)
Example unpack_detour_makes_a_directory :
  let r := unpack ["w"] ∅
             (mkArchive [Byte.x01; Byte.x00; Byte.x00; Byte.x00]
                [mkTarInfo "../x/../CMake_unpacked/f" 1 REGTYPE [Byte.x01]])
             (PurePath_of "CMake_unpacked") in
  r.2 = Ok () ∧ fs r.1 !! ["w"; "x"] = Some Dir ∧
  file_at (fs r.1) ["w"; "CMake_unpacked"; "f"] = Some [Byte.x01].
Proof. vm_compute. repeat split. Qed.





(** A declared size of 5 against 3 bytes written: [unpack] returns. *)
Example unpack_size_mismatch_returns :
  let r := unpack ["w"] ∅ (mkArchive [Byte.x05; Byte.x00; Byte.x00; Byte.x00] Sample.harmless)
             (PurePath_of "CMake_unpacked") in
  r.2 = Ok () ∧ total (pb r.1) = 5 ∧ n (pb r.1) = 3 ∧
  file_at (fs r.1) ["w"; "CMake_unpacked"; "cmake"; "bin"; "cmake"]
    = Some [Byte.x01; Byte.x02; Byte.x03].
Proof. vm_compute. repeat split. Qed.

End Extraction.

(** ** The manifest reader *)

Section Manifest.
Import BuildDeb Spec.

Implicit Types (self : Reader) (line body : string).

Lemma app_String (c : ascii) (a b : string) : String c a +:+ b = String c (a +:+ b).
Proof. reflexivity. Qed.

Lemma app_empty (b : string) : "" +:+ b = b.
Proof. reflexivity. Qed.

Lemma string_app_assoc (a b c : string) : (a +:+ b) +:+ c = a +:+ (b +:+ c).
Proof. induction a as [|x a IH]; [done | by rewrite !app_String, IH]. Qed.

Lemma string_app_nil_r (a : string) : a +:+ "" = a.
Proof. induction a as [|x a IH]; [done | by rewrite app_String, IH]. Qed.

Lemma string_length_app (a b : string) :
  String.length (a +:+ b) = (String.length a + String.length b)%nat.
Proof. induction a as [|x a IH]; [done | rewrite app_String; simpl; by rewrite IH]. Qed.

(** After the end-of-line marker the parser is back at the start of a
    record: every line is one record. *)
Lemma parse_process_char_EOL self self' :
  parse_process_char self None = Ok self' → state self' = START_RECORD.
Proof.
  destruct self as [[] fs fd]; unfold parse_process_char; simpl; by intros [= <-].
Qed.

Lemma for_rows_row_of {S} (body : S → list string → result S) (lines : list string) (s : S) :
  for_rows body parse_reset lines s =
  for_each (λ s line, row_of line ≫= body s) lines s.
Proof.
  revert s; induction lines as [|line lines IH]; intros s; simpl; [done|].
  unfold row_of.
  destruct (parse_line parse_reset line) as [self1|e]; simpl; [|done].
  destruct (parse_process_char self1 None) as [self2|e] eqn:HEOL; simpl; [|done].
  rewrite (parse_process_char_EOL _ _ HEOL).
  destruct (body s (fields self2)) as [s'|e]; simpl; [apply IH | done].
Qed.

Lemma parse_line_app self (l1 l2 : string) :
  parse_line self (l1 +:+ l2) = parse_line self l1 ≫= λ self', parse_line self' l2.
Proof.
  revert self; induction l1 as [|c l1 IH]; intros self; [done|].
  rewrite app_String. simpl.
  destruct (Ascii.eqb c NUL); [done|].
  destruct (parse_process_char self (Some c)) as [self'|e]; simpl; [apply IH | done].
Qed.

(** A character never brings the parser back to the start of a record. *)
Lemma parse_process_char_Some self c self' :
  parse_process_char self (Some c) = Ok self' → state self' ≠ START_RECORD.
Proof.
  destruct self as [[] fs fd]; unfold parse_process_char, parse_add_char; simpl;
    repeat (match goal with |- context [if ?b then _ else _] => destruct b end; simpl);
    intros [= <-]; done.
Qed.

Lemma parse_line_state self line self' :
  parse_line self line = Ok self' →
  line ≠ "" ∨ state self ≠ START_RECORD → state self' ≠ START_RECORD.
Proof.
  revert self; induction line as [|c line IH]; intros self; simpl.
  - intros [= <-] [?|?]; done.
  - destruct (Ascii.eqb c NUL); [discriminate|].
    destruct (parse_process_char self (Some c)) as [self1|e] eqn:Hc; simpl; [|discriminate].
    intros Hline _. apply (IH _ Hline). right. by eapply parse_process_char_Some.
Qed.

(** A line feed before the end of the line changes nothing. *)
Lemma parse_process_char_LF_EOL self :
  state self ≠ START_RECORD →
  (parse_process_char self (Some LF) ≫= λ self', parse_process_char self' None) =
  parse_process_char self None.
Proof. destruct self as [[] fs fd]; unfold parse_process_char; simpl; done. Qed.

Lemma row_of_LF line : line ≠ "" → row_of (line +:+ String LF "") = row_of line.
Proof.
  intros Hline. unfold row_of. rewrite parse_line_app.
  destruct (parse_line parse_reset line) as [self|e] eqn:Hparse; simpl; [|done].
  assert (state self ≠ START_RECORD) as Hstate
    by (eapply parse_line_state; [exact Hparse | by left]).
  change (Ascii.eqb LF NUL) with false. simpl.
  pose proof (parse_process_char_LF_EOL self Hstate) as HLF.
  destruct (parse_process_char self (Some LF)) as [self1|e]; simpl in *; by rewrite <- HLF.
Qed.

(** The lines of a text and of the same text with a line feed added. *)
Lemma readlines_aux_trailing (s cur : string) :
  Str.not_ending_with LF s = true → cur +:+ s ≠ "" →
  ∃ pre last,
    readlines_aux cur s = pre ++ [last] ∧
    readlines_aux cur (s +:+ String LF "") = pre ++ [last +:+ String LF ""] ∧
    last ≠ "".
Proof.
  revert cur; induction s as [|c s IH]; intros cur Hend Hne.
  - rewrite string_app_nil_r in Hne. exists [], cur. rewrite app_empty. simpl.
    destruct cur; [done|]. change (Ascii.eqb LF LF) with true. simpl. done.
  - rewrite app_String. simpl.
    destruct (Ascii.eqb_spec c LF) as [->|Hc].
    + destruct s as [|c' s]; [by vm_compute in Hend|].
      destruct (IH "") as (pre & last & H1 & H2 & Hlast); [done | done |].
      exists ((cur +:+ String LF "") :: pre), last. rewrite H1, H2. done.
    + destruct (IH (cur +:+ String c "")) as (pre & last & H1 & H2 & Hlast).
      * destruct s; [done | exact Hend].
      * destruct cur; rewrite ?app_String; discriminate.
      * exists pre, last. done.
Qed.

Lemma for_each_rows {S} (body : S → list string → result S)
    (lines : list string) (rs : list (list string)) (s : S) :
  Forall2 (λ line row, row_of line = Ok row) lines rs →
  for_each (λ s line, row_of line ≫= body s) lines s = for_each body rs s.
Proof.
  intros Hrows. revert s; induction Hrows as [|line row lines rs Hrow _ IH]; intros s;
    simpl; [done|].
  rewrite Hrow. simpl. destruct (body s row); simpl; [apply IH | done].
Qed.

(** The body of the loop of [parseHashesFile] on one record. *)
Lemma parseHashesFile_body (res : gmap string string) (row : list string) :
  (getitem row 0 ≫= λ v, getitem row 2 ≫= λ k, Ok (<[k := v]> res)) =
  if decide (3 ≤ length row)%nat then Ok (put_row res row)
  else Raise (IndexError "list index out of range").
Proof.
  unfold put_row.
  destruct row as [|a [|b [|c row]]]; simpl; try done.
Qed.

Lemma parseHashesFile_loop_long (rs : list (list string)) (res : gmap string string) :
  (∀ row, row ∈ rs → (3 ≤ length row)%nat) →
  for_each (λ res row, getitem row 0 ≫= λ v, getitem row 2 ≫= λ k, Ok (<[k := v]> res))
    rs res = Ok (foldl put_row res rs).
Proof.
  revert res; induction rs as [|row rs IH]; intros res Hlong; simpl; [done|].
  rewrite parseHashesFile_body. rewrite decide_True by (apply Hlong; left). simpl.
  apply IH. intros row' Hrow'. apply Hlong. by right.
Qed.

Lemma parseHashesFile_loop_short (rs : list (list string)) (res : gmap string string) :
  (∃ row, row ∈ rs ∧ (length row < 3)%nat) →
  for_each (λ res row, getitem row 0 ≫= λ v, getitem row 2 ≫= λ k, Ok (<[k := v]> res))
    rs res = Raise (IndexError "list index out of range").
Proof.
  revert res; induction rs as [|row rs IH]; intros res (short & Hin & Hshort); simpl.
  - inversion Hin.
  - rewrite parseHashesFile_body. case_decide as Hlen; simpl; [|done].
    apply IH. apply elem_of_cons in Hin as [->|Hin]; [lia | eauto].
Qed.

(** What the reader makes of a line without line breaks: the pieces between
    the spaces. *)
Lemma parse_line_split (body : string) self :
  state self = START_FIELD ∧ field self = "" ∨ state self = IN_FIELD →
  one_line body →
  (N.of_nat (String.length (field self) + String.length body) <= field_limit)%N →
  (parse_line self body ≫= λ self', parse_process_char self' None) =
  Ok (mkReader START_RECORD (fields self ++ Str.split_aux delimiter (field self) body) "").
Proof.
  revert self; induction body as [|c body IH]; intros self Hstate Hclean Hlen.
  - destruct self as [st fs fd]; simpl in *.
    destruct Hstate as [[-> ->] | ->]; done.
  - destruct Hclean as (HLF & HCR & HNUL). simpl in HLF, HCR, HNUL.
    apply orb_false_iff in HLF as [HcLF HLF], HCR as [HcCR HCR], HNUL as [HcNUL HNUL].
    simpl. rewrite HcNUL.
    assert (is_newline c = false) as Hnl by (unfold is_newline; by rewrite HcLF, HcCR).
    assert ((field_limit <=? N.of_nat (String.length (field self)))%N = false) as Hroom.
    { apply N.leb_gt. simpl in Hlen. lia. }
    destruct self as [st fs fd]; simpl in *.
    destruct (Ascii.eqb c delimiter) eqn:Hdelim.
    + assert (parse_process_char (mkReader st fs fd) (Some c) =
              Ok (mkReader START_FIELD (fs ++ [fd]) "")) as ->.
      { destruct Hstate as [[-> ->] | ->]; unfold parse_process_char; simpl;
          by rewrite Hnl, Hdelim. }
      simpl. rewrite IH; simpl; [by rewrite <- app_assoc | by left | done | lia].
    + assert (parse_process_char (mkReader st fs fd) (Some c) =
              Ok (mkReader IN_FIELD fs (fd +:+ String c ""))) as ->.
      { destruct Hstate as [[-> ->] | ->]; unfold parse_process_char, parse_add_char;
          simpl; by rewrite Hnl, Hdelim, ?Hroom. }
      simpl. rewrite IH; simpl; [done | by right | done |].
      rewrite string_length_app. simpl. lia.
Qed.

Lemma row_of_split (body : string) :
  body ≠ "" → one_line body →
  (N.of_nat (String.length body) <= field_limit)%N →
  row_of body = Ok (Str.split delimiter body).
Proof.
  intros Hne Hclean Hlen. destruct body as [|c body]; [done|].
  pose proof Hclean as (HLF & HCR & HNUL). simpl in HLF, HCR, HNUL.
  apply orb_false_iff in HLF as [HcLF _], HCR as [HcCR _], HNUL as [HcNUL _].
  assert (parse_process_char parse_reset (Some c) =
          parse_process_char (mkReader START_FIELD [] "") (Some c)) as Hstart.
  { unfold parse_process_char, is_newline. simpl. by rewrite HcLF, HcCR. }
  pose proof (parse_line_split (String c body) (mkReader START_FIELD [] "")) as Hsplit.
  unfold row_of. simpl in *. rewrite HcNUL in *. rewrite Hstart.
  destruct (parse_process_char (mkReader START_FIELD [] "") (Some c)) as [self|e];
    simpl in *.
  - destruct (parse_line self body) as [self1|e]; simpl in *.
    + rewrite Hsplit; [done | by left | done | lia].
    + discriminate Hsplit; [by left | done | lia].
  - discriminate Hsplit; [by left | done | lia].
Qed.

Lemma row_of_blank : row_of (String LF "") = Ok [].
Proof. reflexivity. Qed.

Lemma parseHashesFile_of_rows (text : string) (rs : list (list string)) :
  Forall2 (λ line row, row_of line = Ok row) (readlines text) rs →
  parseHashesFile text =
  for_each (λ res row, getitem row 0 ≫= λ v, getitem row 2 ≫= λ k, Ok (<[k := v]> res))
    rs ∅.
Proof.
  intros Hrows. unfold parseHashesFile. rewrite for_rows_row_of. by apply for_each_rows.
Qed.

(** C7, as the code has it. Let [rs] be the records the reader makes of the
    lines of the text. If one of them has fewer than three fields (an empty
    line has none), [parseHashesFile] raises [IndexError]. If all have three
    fields or more, it returns, and every record, in order, has set the
    entry of its third field to its first field: fields after the third are
    ignored and no line is skipped. A text that does not end with a line
    feed parses as the same text with one added. *)
Theorem parseHashesFile_raises_on_short_lines (text : string) (rs : list (list string)) :
  Forall2 (λ line row, row_of line = Ok row) (readlines text) rs →
  ((∃ row, row ∈ rs ∧ (length row < 3)%nat) →
     parseHashesFile text = Raise (IndexError "list index out of range")) ∧
  ((∀ row, row ∈ rs → (3 ≤ length row)%nat) →
     parseHashesFile text = Ok (foldl put_row ∅ rs)) ∧
  (text ≠ "" → Str.not_ending_with LF text = true →
     parseHashesFile (text +:+ String LF "") = parseHashesFile text).
Proof.
  intros Hrows. pose proof (parseHashesFile_of_rows text rs Hrows) as Hparse.
  split; [|split].
  - intros Hshort. rewrite Hparse. by apply parseHashesFile_loop_short.
  - intros Hlong. rewrite Hparse. by apply parseHashesFile_loop_long.
  - intros Hne Hend. unfold parseHashesFile, readlines. rewrite !for_rows_row_of.
    destruct (readlines_aux_trailing text "" Hend) as (pre & last & -> & -> & Hlast);
      [done|].
    rewrite !for_each_app.
    destruct (for_each _ pre ∅) as [res|e]; simpl; [|done].
    by rewrite row_of_LF.
Qed.

Lemma parseHashesFile_raises_on_short_lines_witness :
  ((∃ row, row ∈ [["abc123"; "SHA-256"; "foo.tar.gz"; "extra"]; ["x"; "y"; "z"]] ∧
           (length row < 3)%nat) →
     parseHashesFile Sample.four_then_three = Raise (IndexError "list index out of range")) ∧
  ((∀ row, row ∈ [["abc123"; "SHA-256"; "foo.tar.gz"; "extra"]; ["x"; "y"; "z"]] →
           (3 ≤ length row)%nat) →
     parseHashesFile Sample.four_then_three =
     Ok (foldl put_row ∅ [["abc123"; "SHA-256"; "foo.tar.gz"; "extra"]; ["x"; "y"; "z"]])) ∧
  (Sample.four_then_three ≠ "" → Str.not_ending_with LF Sample.four_then_three = true →
     parseHashesFile (Sample.four_then_three +:+ String LF "") =
     parseHashesFile Sample.four_then_three).
Proof.
  apply (parseHashesFile_raises_on_short_lines Sample.four_then_three
           [["abc123"; "SHA-256"; "foo.tar.gz"; "extra"]; ["x"; "y"; "z"]]).
  assert (readlines Sample.four_then_three =
          ["abc123 SHA-256 foo.tar.gz extra" +:+ String LF ""; "x y z"]) as ->
    by (vm_compute; reflexivity).
  constructor; [vm_compute; reflexivity|].
  constructor; [vm_compute; reflexivity|].
  constructor.
Defined.

(** C7 as stated fails: a line of four fields is not rejected. *)
Lemma parseHashesFile_accepts_a_four_field_line :
  row_of ("abc123 SHA-256 foo.tar.gz extra" +:+ String LF "") =
    Ok ["abc123"; "SHA-256"; "foo.tar.gz"; "extra"] ∧
  parseHashesFile ("abc123 SHA-256 foo.tar.gz extra" +:+ String LF "") =
    Ok {[ "foo.tar.gz" := "abc123" ]}.
Proof. split; vm_compute; reflexivity. Qed.

(** An empty line is a record without fields: a second line feed at the end
    of the text is not tolerated. *)
Example parseHashesFile_blank_line :
  parseHashesFile ("abc123 SHA-256 foo.tar.gz" +:+ String LF (String LF "")) =
  Raise (IndexError "list index out of range").
Proof. vm_compute. reflexivity. Qed.

Lemma mem_app (c : ascii) (a b : string) :
  Str.mem c (a +:+ b) = Str.mem c a || Str.mem c b.
Proof.
  induction a as [|x a IH]; [done|]. rewrite app_String. simpl.
  by rewrite IH, orb_assoc.
Qed.

Lemma readlines_aux_line (body cur rest : string) :
  Str.mem LF body = false →
  readlines_aux cur (body +:+ String LF rest) =
  (cur +:+ body +:+ String LF "") :: readlines_aux "" rest.
Proof.
  revert cur; induction body as [|c body IH]; intros cur Hmem.
  - rewrite !app_empty. simpl. change (Ascii.eqb LF LF) with true. done.
  - simpl in Hmem. apply orb_false_iff in Hmem as [Hc Hmem].
    rewrite app_String. simpl. rewrite Hc, IH by done.
    by rewrite string_app_assoc.
Qed.

Lemma split_aux_field (sep : ascii) (w cur rest : string) :
  Str.mem sep w = false →
  Str.split_aux sep cur (w +:+ String sep rest) = (cur +:+ w) :: Str.split_aux sep "" rest.
Proof.
  revert cur; induction w as [|c w IH]; intros cur Hmem.
  - rewrite app_empty, string_app_nil_r. simpl. by rewrite Ascii.eqb_refl.
  - simpl in Hmem. apply orb_false_iff in Hmem as [Hc Hmem].
    rewrite app_String. simpl. rewrite Hc, IH by done.
    by rewrite string_app_assoc.
Qed.

Lemma split_aux_last (sep : ascii) (w cur : string) :
  Str.mem sep w = false → Str.split_aux sep cur w = [cur +:+ w].
Proof.
  revert cur; induction w as [|c w IH]; intros cur Hmem.
  - by rewrite string_app_nil_r.
  - simpl in Hmem. apply orb_false_iff in Hmem as [Hc Hmem].
    simpl. rewrite Hc, IH by done. by rewrite string_app_assoc.
Qed.

Lemma render_line_one_line (e : ManifestLine) :
  well_formed e → one_line (render_line e).
Proof.
  intros (((H1 & H2 & H3) & _) & ((A1 & A2 & A3) & _) & ((F1 & F2 & F3) & _) & _).
  unfold one_line, render_line. rewrite !mem_app, H1, H2, H3, A1, A2, A3, F1, F2, F3.
  done.
Qed.

Lemma row_of_render_line (e : ManifestLine) :
  well_formed e →
  row_of (render_line e +:+ String LF "") = Ok [hash e; algorithm e; filename e].
Proof.
  intros Hwf. pose proof (render_line_one_line e Hwf) as Hline.
  destruct Hwf as ((_ & Hh) & (_ & Ha) & (_ & Hf) & Hlen).
  rewrite row_of_LF, row_of_split; [| | done | done |].
  - unfold Str.split, render_line, delimiter in *. rewrite !app_String, !app_empty.
    rewrite split_aux_field, split_aux_field, split_aux_last by done. done.
  - unfold render_line. destruct (hash e); discriminate.
  - unfold render_line. destruct (hash e); discriminate.
Qed.

Lemma readlines_render (entries : list ManifestLine) :
  Forall well_formed entries →
  readlines (render entries) = (λ e, render_line e +:+ String LF "") <$> entries.
Proof.
  unfold readlines. induction 1 as [|e entries Hwf _ IH]; [done|].
  simpl. rewrite readlines_aux_line by (by destruct (render_line_one_line e Hwf)).
  by rewrite IH.
Qed.

(** The manifest of a list of entries parses to the entries put into a
    dictionary one after the other. *)
Lemma parseHashesFile_render (entries : list ManifestLine) :
  Forall well_formed entries →
  parseHashesFile (render entries) =
  Ok (foldl (λ res e, <[filename e := hash e]> res) ∅ entries).
Proof.
  intros Hwf.
  assert (Forall2 (λ line row, row_of line = Ok row) (readlines (render entries))
            ((λ e, [hash e; algorithm e; filename e]) <$> entries)) as Hrows.
  { rewrite readlines_render by done. apply Forall2_fmap, Forall_Forall2_diag.
    eapply Forall_impl; [exact Hwf|]. intros e He. by apply row_of_render_line. }
  rewrite (parseHashesFile_of_rows _ _ Hrows), parseHashesFile_loop_long.
  - by rewrite foldl_fmap.
  - intros row (e & -> & _)%list_elem_of_fmap. simpl. lia.
Qed.





(** C8 as stated fails: the format has no quoting, so a file name with a
    space is split by the reader. The manifest generated from the mapping of
    ["my file.tar.gz"] to ["abc123"] parses without an error to a dictionary
    whose only key is ["my"]; the mapping is not recovered. *)
Lemma parseHashesFile_splits_a_file_name_with_a_space :
  let entries := [mkManifestLine "abc123" "SHA-256" "my file.tar.gz"] in
  NoDup (filename <$> entries) ∧
  render entries = "abc123 SHA-256 my file.tar.gz" +:+ String LF "" ∧
  parseHashesFile (render entries) = Ok {[ "my" := "abc123" ]} ∧
  parseHashesFile (render entries)
    ≠ Ok (list_to_map ((λ e, (filename e, hash e)) <$> entries)) ∧
  ∀ res, parseHashesFile (render entries) = Ok res → res !! "my file.tar.gz" = None.
Proof.
  intros entries.
  assert (parseHashesFile (render entries) = Ok {[ "my" := "abc123" ]}) as Hrun
    by (vm_compute; reflexivity).
  split; [apply NoDup_singleton|]. split; [reflexivity|]. split; [exact Hrun|].
  split.
  - rewrite Hrun. intros Heq.
    apply (f_equal (λ r : result (gmap string string),
                      match r with Ok res => res !! "my" | Raise _ => None end)) in Heq.
    vm_compute in Heq. discriminate.
  - intros res. rewrite Hrun. intros [= <-]. by apply lookup_singleton_ne.
Qed.

Example parseHashesFile_keeps_case :
  parseHashesFile (render Sample.manifest) =
  Ok {[ "foo.tar.gz" := "abc123" ; "bar.txt" := "DEF456" ]}.
Proof. vm_compute. reflexivity. Qed.

End Manifest.

(** ** Signature verification *)

Section Trust.
Import BuildDeb Spec.

Implicit Types (gpgContext : Context) (res : list Signature) (allowed : gset string).

Lemma existsb_allowed res allowed :
  existsb (λ s, bool_decide (sig_fpr s ∈ allowed)) res = true ↔
  ∃ s, s ∈ res ∧ sig_fpr s ∈ allowed.
Proof.
  rewrite existsb_exists. split.
  - intros (s & Hs & Hin). exists s. split; [by apply list_elem_of_In|].
    by apply bool_decide_eq_true in Hin.
  - intros (s & Hs & Hin). exists s. split; [by apply list_elem_of_In|].
    by apply bool_decide_eq_true.
Qed.

Lemma signers_meet_allowed res allowed :
  (list_to_set (sig_fpr <$> res) : gset string) ∩ allowed ≠ ∅ ↔
  ∃ s, s ∈ res ∧ sig_fpr s ∈ allowed.
Proof.
  split.
  - intros (fpr & [Hsig Hallowed]%elem_of_intersection)%set_choose_L.
    apply elem_of_list_to_set, list_elem_of_fmap in Hsig as (s & -> & Hs). eauto.
  - intros (s & Hs & Hallowed) Hempty.
    assert (sig_fpr s ∈ (list_to_set (sig_fpr <$> res) : gset string) ∩ allowed) as Hin.
    { apply elem_of_intersection. split; [|done].
      apply elem_of_list_to_set, list_elem_of_fmap. eauto. }
    rewrite Hempty in Hin. by apply not_elem_of_empty in Hin.
Qed.

(** The allowed fingerprints: the subkeys of the key whose fingerprint is the
    first argument in upper case, or else the second argument in upper case,
    or else none. *)
Lemma allowedFingerprints_spec gpgContext (keyFingerprint subkeyFingerprint : option string)
    allowed :
  allowedFingerprints gpgContext keyFingerprint subkeyFingerprint = Ok allowed →
  match truthy keyFingerprint, truthy subkeyFingerprint with
  | Some k, _ =>
      ∃ key, findKeyByFingerprint gpgContext (Str.upper k) = Some key ∧
             ∀ fpr, fpr ∈ allowed ↔ ∃ sk, sk ∈ subkeys key ∧ subkey_fpr sk = fpr
  | None, Some sk => allowed = {[Str.upper sk]}
  | None, None => allowed = ∅
  end.
Proof.
  unfold allowedFingerprints.
  destruct (truthy keyFingerprint) as [k|].
  - destruct (findKeyByFingerprint gpgContext (Str.upper k)) as [key|]; [|discriminate].
    intros [= <-]. exists key. split; [done|]. intros fpr.
    assert (∀ (l : list Subkey) (acc : gset string),
              fpr ∈ foldl (λ allowed sk, allowed ∪ {[subkey_fpr sk]}) acc l ↔
              fpr ∈ acc ∨ ∃ sk, sk ∈ l ∧ subkey_fpr sk = fpr) as Hfold.
    { induction l as [|sk l IH]; intros acc; simpl.
      - split; [auto | intros [?|(? & Hin & _)]; [done | inversion Hin]].
      - rewrite IH, elem_of_union, elem_of_singleton. split.
        + intros [[Hacc|Hsk]|(sk' & Hin & Hfpr)]; [by left | right | right].
          * exists sk. split; [left | done].
          * exists sk'. split; [by right | done].
        + intros [Hacc|(sk' & Hin & Hfpr)]; [by left; left|].
          apply elem_of_cons in Hin as [Heq|Hin].
          * left; right. by rewrite <- Hfpr, Heq.
          * right. eauto. }
    rewrite Hfold. split; [intros [Hempty|?]; [by apply not_elem_of_empty in Hempty | done]
                          | auto].
  - destruct (truthy subkeyFingerprint); by intros [= <-].
Qed.

(** C3. With the allowed fingerprints built (lines 226-232) and the
    verifier reporting the signatures [res] over the data, [verifyBlob]
    returns [True] if and only if a reported signer fingerprint is among the
    allowed ones; otherwise it raises, and the message lists the fingerprint
    of every reported signature. It never returns [False]. *)
Theorem verifyBlob_True_iff_signer_allowed gpgContext (signedData signature : string)
    (keyFingerprint subkeyFingerprint : option string) allowed res :
  allowedFingerprints gpgContext keyFingerprint subkeyFingerprint = Ok allowed →
  verify gpgContext signedData signature = Ok res →
  (verifyBlob gpgContext signedData signature keyFingerprint subkeyFingerprint = Ok true ↔
     (list_to_set (sig_fpr <$> res) : gset string) ∩ allowed ≠ ∅) ∧
  ((list_to_set (sig_fpr <$> res) : gset string) ∩ allowed = ∅ →
     verifyBlob gpgContext signedData signature keyFingerprint subkeyFingerprint =
     Raise (Exception ("Wrong public keys used: " +:+ Str.join " " (sig_fpr <$> res)))) ∧
  verifyBlob gpgContext signedData signature keyFingerprint subkeyFingerprint ≠ Ok false.
Proof.
  intros Hallowed Hres. unfold verifyBlob. rewrite Hallowed, Hres. simpl.
  rewrite signers_meet_allowed, <- existsb_allowed.
  destruct (existsb _ res) eqn:Hex.
  - split; [done|]. split; [|done]. intros Hempty.
    apply existsb_allowed, signers_meet_allowed in Hex. done.
  - split; [split; discriminate|]. split; [done | discriminate].
Qed.

Lemma verifyBlob_True_iff_signer_allowed_witness :
  let gpgContext := Sample.signed_by "0123456789ABCDEF0123456789ABCDEF01234567" in
  let allowed : gset string :=
    {[ signingKeyFingerprint ; "0123456789ABCDEF0123456789ABCDEF01234567" ]} in
  let res := [mkSignature "0123456789ABCDEF0123456789ABCDEF01234567"] in
  (verifyBlob gpgContext "manifest" "signature" (Some signingKeyFingerprint) None = Ok true ↔
     (list_to_set (sig_fpr <$> res) : gset string) ∩ allowed ≠ ∅) ∧
  ((list_to_set (sig_fpr <$> res) : gset string) ∩ allowed = ∅ →
     verifyBlob gpgContext "manifest" "signature" (Some signingKeyFingerprint) None =
     Raise (Exception ("Wrong public keys used: " +:+ Str.join " " (sig_fpr <$> res)))) ∧
  verifyBlob gpgContext "manifest" "signature" (Some signingKeyFingerprint) None ≠ Ok false.
Proof.
  intros gpgContext allowed res.
  apply (verifyBlob_True_iff_signer_allowed gpgContext "manifest" "signature"
           (Some signingKeyFingerprint) None allowed res).
  - vm_compute. reflexivity.
  - reflexivity.
Defined.

(** A signature by a key that is not allowed: the exception names it. *)
Example verifyBlob_forged :
  verifyBlob (Sample.signed_by "FFFFFFFFFFFFFFFFFFFFFFFFFFFFFFFFFFFFFFFF") "manifest" "signature"
    (Some signingKeyFingerprint) None =
  Raise (Exception "Wrong public keys used: FFFFFFFFFFFFFFFFFFFFFFFFFFFFFFFFFFFFFFFF").
Proof. vm_compute. reflexivity. Qed.

(** Whatever the verifier raises, [verifyBlob] raises. *)
Lemma verifyBlob_fails_closed gpgContext (signedData signature : string)
    (keyFingerprint subkeyFingerprint : option string) e :
  verify gpgContext signedData signature = Raise e →
  ∃ e', verifyBlob gpgContext signedData signature keyFingerprint subkeyFingerprint = Raise e'.
Proof.
  intros Hraise. unfold verifyBlob.
  destruct (allowedFingerprints _ _ _); simpl; [rewrite Hraise|]; eauto.
Qed.

Lemma upper_empty (s : string) : Str.upper s = "" ↔ s = "".
Proof. destruct s; simpl; split; (done || discriminate). Qed.

(** A fingerprint argument counts as given, or not, whatever its case. *)
Lemma truthy_upper (a b : option string) :
  Str.upper <$> a = Str.upper <$> b →
  Str.upper <$> truthy a = Str.upper <$> truthy b.
Proof.
  destruct a as [[|x a]|], b as [[|y b]|]; simpl; try done; intros [= ?]; congruence.
Qed.

(** C6, as the code has it. The two fingerprint arguments are put in upper
    case before use, so arguments that differ only in case give the same
    result. The fingerprints of the keyring and those the verifier reports
    are compared as they are. *)
Theorem verifyBlob_ignores_case_of_arguments gpgContext (signedData signature : string)
    (keyFingerprint keyFingerprint' subkeyFingerprint subkeyFingerprint' : option string) :
  Str.upper <$> keyFingerprint = Str.upper <$> keyFingerprint' →
  Str.upper <$> subkeyFingerprint = Str.upper <$> subkeyFingerprint' →
  verifyBlob gpgContext signedData signature keyFingerprint subkeyFingerprint =
  verifyBlob gpgContext signedData signature keyFingerprint' subkeyFingerprint'.
Proof.
  intros Hkey%truthy_upper Hsub%truthy_upper.
  unfold verifyBlob, allowedFingerprints.
  destruct (truthy keyFingerprint) as [k|], (truthy keyFingerprint') as [k'|];
    simpl in Hkey; try discriminate.
  - injection Hkey as ->. done.
  - destruct (truthy subkeyFingerprint) as [sk|], (truthy subkeyFingerprint') as [sk'|];
      simpl in Hsub; try discriminate; [|done].
    injection Hsub as ->. done.
Qed.

Lemma verifyBlob_ignores_case_of_arguments_witness :
  verifyBlob (Sample.signed_by "0123456789ABCDEF0123456789ABCDEF01234567")
    "manifest" "signature" (Some "cba23971357c2e6590d9efd3ec8fef3a7bfb4eda") None =
  verifyBlob (Sample.signed_by "0123456789ABCDEF0123456789ABCDEF01234567")
    "manifest" "signature" (Some signingKeyFingerprint) None.
Proof.
  apply (verifyBlob_ignores_case_of_arguments
           (Sample.signed_by "0123456789ABCDEF0123456789ABCDEF01234567")
           "manifest" "signature"
           (Some "cba23971357c2e6590d9efd3ec8fef3a7bfb4eda") (Some signingKeyFingerprint)
           None None); reflexivity.
Defined.

(** C6 as stated fails on the observed side: the same signer reported in
    lower case and in upper case gives different results, because the
    reported fingerprint is not put in upper case before the comparison. *)
Lemma verifyBlob_compares_reported_fingerprints_as_they_are :
  Str.upper "0123456789abcdef0123456789abcdef01234567" =
    "0123456789ABCDEF0123456789ABCDEF01234567" ∧
  verifyBlob (Sample.signed_by "0123456789ABCDEF0123456789ABCDEF01234567")
    "manifest" "signature" None (Some "0123456789abcdef0123456789abcdef01234567") = Ok true ∧
  verifyBlob (Sample.signed_by "0123456789abcdef0123456789abcdef01234567")
    "manifest" "signature" None (Some "0123456789abcdef0123456789abcdef01234567") =
  Raise (Exception "Wrong public keys used: 0123456789abcdef0123456789abcdef01234567").
Proof. repeat split; vm_compute; reflexivity. Qed.

End Trust.

(** ** The fetch pipeline *)

Section Fetch.
Import pathlib BuildDeb Spec.

Lemma lower_eqb (a b : string) :
  String.eqb (Str.lower a) (Str.lower b) = bool_decide (Str.lower a = Str.lower b).
Proof.
  destruct (String.eqb_spec (Str.lower a) (Str.lower b)).
  - by rewrite bool_decide_eq_true_2.
  - by rewrite bool_decide_eq_false_2.
Qed.

(** C2. Let the manifest and its signature be downloaded, the signature
    verified, the manifest parsed, and let the manifest have an entry for
    the file name of the archive. Once the archive and the license are
    downloaded, the digest of the archive and the entry are compared in
    lower case: if they are equal the fetch returns the local path of the
    archive, and if they differ it raises and returns no path. *)
Theorem doBuild_checks_the_digest_ignoring_case (w : World)
    (selectedTarget : GitHubAPI.DownloadTarget)
    (hashesFile hashesSigFile binary : GitHubAPI.DownloadTargetFile)
    (hashesRaw hashesSigRaw archive license etalon : string)
    (hashes : gmap string string) :
  GitHubAPI.files selectedTarget !! Some "hashes" = Some hashesFile →
  GitHubAPI.files selectedTarget !! Some "hashesSig" = Some hashesSigFile →
  GitHubAPI.files selectedTarget !! Some "binary" = Some binary →
  http_get w (GitHubAPI.file_uri hashesFile) = Ok hashesRaw →
  http_get w (GitHubAPI.file_uri hashesSigFile) = Ok hashesSigRaw →
  verifyBlob (gpgContext w) hashesRaw hashesSigRaw (Some signingKeyFingerprint) None
    = Ok true →
  parseHashesFile hashesRaw = Ok hashes →
  hashes !! name (PurePath_of (GitHubAPI.file_uri binary)) = Some etalon →
  http_get w (GitHubAPI.file_uri binary) = Ok archive →
  http_get w licenseFileURI = Ok license →
  (Str.lower (sha256 w archive) = Str.lower etalon →
     doBuild_fetch w selectedTarget = Ok archPath) ∧
  (Str.lower (sha256 w archive) ≠ Str.lower etalon →
     doBuild_fetch w selectedTarget =
     Raise (Exception "Bad hash for the downloaded archive!")).
Proof.
  intros Hhashes Hsig Hbinary HhashesRaw HsigRaw Hverified Hparsed Hentry Harchive Hlicense.
  unfold doBuild_fetch, dict_getitem.
  rewrite Hhashes; simpl. rewrite HhashesRaw; simpl.
  rewrite Hsig; simpl. rewrite HsigRaw; simpl.
  rewrite Hverified; simpl. rewrite Hparsed; simpl.
  rewrite Hbinary; simpl. rewrite Hentry; simpl.
  rewrite Harchive; simpl. rewrite Hlicense; simpl.
  rewrite lower_eqb. split; intros Hcmp.
  - by rewrite bool_decide_eq_true_2.
  - by rewrite bool_decide_eq_false_2.
Qed.

Lemma doBuild_checks_the_digest_ignoring_case_witness :
  (Str.lower (sha256 (Sample.world "abc123" "ABC123") "payload") = Str.lower "abc123" →
     doBuild_fetch (Sample.world "abc123" "ABC123") Sample.selected = Ok archPath) ∧
  (Str.lower (sha256 (Sample.world "abc123" "ABC123") "payload") ≠ Str.lower "abc123" →
     doBuild_fetch (Sample.world "abc123" "ABC123") Sample.selected =
     Raise (Exception "Bad hash for the downloaded archive!")).
Proof.
  apply (doBuild_checks_the_digest_ignoring_case (Sample.world "abc123" "ABC123")
           Sample.selected Sample.hashes_file Sample.hashesSig_file Sample.binary_file
           ("abc123 SHA-256 foo.tar.gz" +:+ String LF "") "signature" "payload" "license"
           "abc123" {[ "foo.tar.gz" := "abc123" ]});
    vm_compute; reflexivity.
Defined.

(** The scenario of the manifest ["abc123 SHA-256 foo.tar.gz"]: a
    downloaded archive of digest [abc123] is accepted, in either case of the
    letters; with one character of the manifest's digest changed it is not. *)
Example doBuild_fetch_accepts :
  doBuild_fetch (Sample.world "abc123" "abc123") Sample.selected = Ok archPath ∧
  doBuild_fetch (Sample.world "abc123" "ABC123") Sample.selected = Ok archPath ∧
  doBuild_fetch (Sample.world "ABC123" "abc123") Sample.selected = Ok archPath.
Proof. repeat split; vm_compute; reflexivity. Qed.

Example doBuild_fetch_rejects :
  doBuild_fetch (Sample.world "abc124" "abc123") Sample.selected =
  Raise (Exception "Bad hash for the downloaded archive!").
Proof. vm_compute. reflexivity. Qed.

End Fetch.

(** ** Regular expressions: the matcher and the language *)

Section Regex.
Import re.

Lemma string_app_eq_empty (a b : string) : a +:+ b = "" → a = "" ∧ b = "".
Proof. destruct a; [done | rewrite app_String; discriminate]. Qed.

Lemma string_app_eq_cons (a b : string) c s :
  a +:+ b = String c s →
  (a = "" ∧ b = String c s) ∨ ∃ a', a = String c a' ∧ s = a' +:+ b.
Proof.
  destruct a as [|x a]; [by left|]. rewrite app_String. intros [= -> <-]. eauto.
Qed.

Lemma Matches_Cat_inv r1 r2 s :
  Matches (Cat r1 r2) s → ∃ s1 s2, s = s1 +:+ s2 ∧ Matches r1 s1 ∧ Matches r2 s2.
Proof. inversion 1; subst; eauto. Qed.

Lemma Matches_Alt_inv r1 r2 s : Matches (Alt r1 r2) s → Matches r1 s ∨ Matches r2 s.
Proof. inversion 1; subst; auto. Qed.

Lemma Matches_Text (w s : string) : Matches (Text w) s ↔ s = w.
Proof.
  revert s; induction w as [|c w IH]; intros s; simpl.
  - split; [by inversion 1 | intros ->; constructor].
  - split.
    + intros (s1 & s2 & -> & H1 & H2%IH)%Matches_Cat_inv. inversion H1; subst. done.
    + intros ->. apply (MCat (Lit c) (Text w) (String c "") w); [constructor | by apply IH].
Qed.

Lemma nullable_Matches r : nullable r = true ↔ Matches r "".
Proof.
  split.
  - induction r; simpl; try discriminate; intros Hn.
    + constructor.
    + apply andb_true_iff in Hn as [H1 H2].
      apply (MCat r1 r2 "" ""); auto.
    + apply orb_true_iff in Hn as [H1|H2]; [apply MAltL | apply MAltR]; auto.
    + constructor.
  - remember EmptyString as s eqn:Hs. induction 1; simpl; try discriminate; try done.
    + apply string_app_eq_empty in Hs as [-> ->]. rewrite IHMatches1, IHMatches2; done.
    + rewrite IHMatches; done.
    + rewrite IHMatches; [apply orb_true_r | done].
Qed.

Lemma deriv_sound c r s : Matches (deriv c r) s → Matches r (String c s).
Proof.
  revert s; induction r; intros s; simpl.
  - inversion 1.
  - destruct (Ascii.eqb_spec c c0) as [->|_]; inversion 1; subst. constructor.
  - destruct (is_digit c) eqn:Hd; inversion 1; subst. by constructor.
  - assert (∀ s, Matches (Cat (deriv c r1) r2) s → Matches (Cat r1 r2) (String c s)) as Hcat.
    { intros s' (s1 & s2 & -> & H1 & H2)%Matches_Cat_inv.
      apply (MCat r1 r2 (String c s1) s2); auto. }
    destruct (nullable r1) eqn:Hn; [|apply Hcat].
    intros [H|H]%Matches_Alt_inv; [by apply Hcat|].
    apply (MCat r1 r2 "" (String c s)); [by apply nullable_Matches | auto].
  - intros [H|H]%Matches_Alt_inv; [apply MAltL | apply MAltR]; auto.
  - intros (s1 & s2 & -> & H1 & H2)%Matches_Cat_inv.
    apply (MStarS r (String c s1) s2); auto.
  - inversion 1.
Qed.

Lemma deriv_complete c r s : Matches r (String c s) → Matches (deriv c r) s.
Proof.
  remember (String c s) as t eqn:Ht. intros Hm. revert s Ht.
  induction Hm as [ | c' | c' Hd | r1 r2 s1 s2 Hm1 IH1 Hm2 IH2 | r1 r2 s0 Hm IH
                  | r1 r2 s0 Hm IH | r | r s1 s2 Hm1 IH1 Hm2 IH2 ];
    intros u Ht; simpl; try discriminate.
  - injection Ht as -> <-. rewrite Ascii.eqb_refl. constructor.
  - injection Ht as -> <-. rewrite Hd. constructor.
  - apply string_app_eq_cons in Ht as [[-> ->]|(s1' & -> & ->)].
    + apply nullable_Matches in Hm1. rewrite Hm1. apply MAltR. by apply IH2.
    + assert (Matches (Cat (deriv c r1) r2) (s1' +:+ s2)) as Hcat
        by (constructor; [by apply IH1 | done]).
      destruct (nullable r1); [by apply MAltL | done].
  - apply MAltL. by apply IH.
  - apply MAltR. by apply IH.
  - apply string_app_eq_cons in Ht as [[-> ->]|(s1' & -> & ->)].
    + by apply IH2.
    + constructor; [by apply IH1 | done].
Qed.

(** The matcher decides the language. *)
Lemma fullmatch_Matches r s : fullmatch r s = true ↔ Matches r s.
Proof.
  revert r; induction s as [|c s IH]; intros r; simpl.
  - apply nullable_Matches.
  - rewrite IH. split; [apply deriv_sound | apply deriv_complete].
Qed.

Lemma Matches_alphabet r s c : Matches r s → Str.mem c s = true → alphabet r c = true.
Proof.
  induction 1; simpl; try discriminate.
  - rewrite orb_false_r. intros ->%Ascii.eqb_eq. apply Ascii.eqb_refl.
  - rewrite orb_false_r. intros ->%Ascii.eqb_eq. done.
  - rewrite mem_app. intros [?|?]%orb_true_iff; apply orb_true_iff; auto.
  - intros ?. apply orb_true_iff; auto.
  - intros ?. apply orb_true_iff; auto.
  - rewrite mem_app. intros [?|?]%orb_true_iff; auto.
Qed.

Lemma chomp_Some (s s' : string) : chomp s = Some s' ↔ s = s' +:+ String (ascii_of_N 10) "".
Proof.
  revert s'; induction s as [|c s IH]; intros s'.
  - split; [discriminate|]. destruct s'; rewrite ?app_empty, ?app_String; discriminate.
  - destruct s as [|c' s].
    + cbn [chomp]. destruct (Ascii.eqb_spec c (ascii_of_N 10)) as [->|Hc].
      * split; [by intros [= <-]|].
        destruct s' as [|x s']; rewrite ?app_empty, ?app_String; [done|].
        intros [= _ Heq]. destruct s'; rewrite ?app_empty, ?app_String in Heq; discriminate.
      * split; [discriminate|].
        destruct s' as [|x s']; rewrite ?app_empty, ?app_String; [by intros [= ?]|].
        intros [= _ Heq]. destruct s'; rewrite ?app_empty, ?app_String in Heq; discriminate.
    + change (chomp (String c (String c' s))) with (String c <$> chomp (String c' s)).
      split.
      * destruct (chomp (String c' s)) as [m|] eqn:Hm; [|discriminate].
        intros [= <-]. rewrite app_String. f_equal. by apply IH.
      * destruct s' as [|x s']; rewrite ?app_empty, ?app_String; [discriminate|].
        intros [= -> Heq]. apply IH in Heq. by rewrite Heq.
Qed.

Lemma mem_LF_app_LF (m : string) : Str.mem (ascii_of_N 10) (m +:+ String (ascii_of_N 10) "") = true.
Proof. rewrite mem_app. simpl. apply orb_true_r. Qed.

(** [^r$] when [r] matches no line feed: the match is the string, or the
    string without the line feed that ends it. *)
Lemma match_anchored_spec r (s m : string) :
  alphabet r (ascii_of_N 10) = false →
  match_anchored r s = Some m ↔
  Matches r m ∧ (s = m ∨ s = m +:+ String (ascii_of_N 10) "").
Proof.
  intros Hnl. unfold match_anchored. split.
  - destruct (fullmatch r s) eqn:Hfull.
    + intros [= <-]. apply fullmatch_Matches in Hfull. auto.
    + destruct (chomp s) as [s'|] eqn:Hchomp; [|discriminate].
      destruct (fullmatch r s') eqn:Hfull'; [|discriminate].
      intros [= <-]. apply fullmatch_Matches in Hfull'. apply chomp_Some in Hchomp. auto.
  - intros [Hm [->| ->]].
    + apply fullmatch_Matches in Hm. by rewrite Hm.
    + destruct (fullmatch r _) eqn:Hfull.
      * apply fullmatch_Matches in Hfull.
        apply (Matches_alphabet _ _ (ascii_of_N 10)) in Hfull; [congruence|].
        apply mem_LF_app_LF.
      * rewrite (proj2 (chomp_Some _ m)) by done.
        apply fullmatch_Matches in Hm. by rewrite Hm.
Qed.

End Regex.

(** ** More on [getTargets] and [max] *)

Section MoreTargets.
Import GitHubAPI Spec.

Implicit Types (rxs : gmap (option string) Pattern) (r : Release).




Lemma collect_files_single (rx : Pattern) (assets : list Asset) :
  collect_files {[ None := rx ]} assets =
  match last (List.filter (matches rx) assets) with
  | Some a => {[ None := file_of None a ]}
  | None => ∅
  end.
Proof.
  apply map_eq. intros role. rewrite collect_files_lookup.
  destruct (decide (role = None)) as [->|Hrole].
  - rewrite lookup_singleton_eq. simpl.
    destruct (last _); simpl; [by rewrite lookup_singleton_eq | by rewrite lookup_empty].
  - rewrite lookup_singleton_ne by done. simpl.
    destruct (last _); [by rewrite lookup_singleton_ne | by rewrite lookup_empty].
Qed.

(** X2. Called with a single pattern instead of a dictionary, [getTargets]
    yields a target for a release that passes the filters exactly when the
    pattern matches one of its assets, and the target's only file, under the
    role [None], is the last such asset. *)
Theorem getTargets_single_pattern (titleRx : option Pattern) (tagRx rx : Pattern)
    (t : list Release) :
  (∀ s gs, tagRx s = Some gs → gs ≠ []) →
  ∃ out,
    getTargets (Releases t) titleRx tagRx (inl rx) = Ok out ∧
    ∀ tgt, tgt ∈ out ↔
      ∃ r v gs a, r ∈ t ∧ title_ok titleRx r ∧
                  tagRx (release_tag_name r) = Some (v :: gs) ∧
                  last (List.filter (matches rx) (release_assets r)) = Some a ∧
                  tgt = mkDownloadTarget (release_name r) v (release_prerelease r)
                          (release_created_at r) (release_published_at r)
                          {[ None := file_of None a ]}.
Proof.
  intros Htag.
  destruct (getTargets_loop_spec titleRx tagRx {[ None := rx ]} t [] Htag)
    as (out & Hout & Hiff).
  exists out. split; [exact Hout|]. intros tgt. rewrite Hiff. split.
  - intros [Hnil|(r & Hr & Hy)]; [inversion Hnil|].
    apply getTargets_release_Some in Hy as (Htitle & v & gs & Hm & Hall & ->).
    destruct (Hall None rx) as (a0 & Ha0 & Hmatch); [apply lookup_singleton_eq|].
    assert (is_Some (last (List.filter (matches rx) (release_assets r)))) as [a Ha]
      by (apply last_filter_is_Some; eauto).
    exists r, v, gs, a. repeat split; try done.
    unfold target_of. by rewrite collect_files_single, Ha.
  - intros (r & v & gs & a & Hr & Htitle & Hm & Ha & ->). right. exists r. split; [done|].
    apply getTargets_release_Some. split; [done|]. exists v, gs. split; [done|]. split.
    + intros role rx' [<- <-]%lookup_singleton_Some.
      apply last_filter_is_Some. by rewrite Ha.
    + unfold target_of. by rewrite collect_files_single, Ha.
Qed.

Lemma getTargets_single_pattern_witness :
  ∃ out,
    getTargets (Releases [Sample.two_binaries]) None Sample.v_tag
      (inl (Sample.ends_with ".tar.gz")) = Ok out ∧
    ∀ tgt, tgt ∈ out ↔
      ∃ r v gs a, r ∈ [Sample.two_binaries] ∧ title_ok None r ∧
                  Sample.v_tag (release_tag_name r) = Some (v :: gs) ∧
                  last (List.filter (matches (Sample.ends_with ".tar.gz"))
                          (release_assets r)) = Some a ∧
                  tgt = mkDownloadTarget (release_name r) v (release_prerelease r)
                          (release_created_at r) (release_published_at r)
                          {[ None := file_of None a ]}.
Proof.
  apply (getTargets_single_pattern None Sample.v_tag (Sample.ends_with ".tar.gz")
           [Sample.two_binaries]).
  intros [|c s] gs; simpl; [discriminate|].
  destruct (Ascii.eqb c "v"); [intros [= <-]; discriminate | discriminate].
Defined.

Lemma getTargets_release_raises (titleRx : option Pattern) (tagRx : Pattern) rxs r e :
  getTargets_release titleRx tagRx rxs r = Raise e → e = IndexError "no such group".
Proof.
  unfold getTargets_release.
  destruct (match titleRx with Some rx => _ | None => false end); [discriminate|].
  destruct (tagRx (release_tag_name r)) as [[|v gs]|]; simpl; [|case_bool_decide|];
    (discriminate || by intros [= <-]).
Qed.

(** X3. A tag pattern without a group: as soon as a release passes the
    title filter and its tag matches with no group captured, [getTargets]
    raises [IndexError], whatever the other releases are. An error payload
    raises its message. *)
Theorem getTargets_raises_without_group (titleRx : option Pattern) (tagRx : Pattern) rxs
    (t : list Release) r :
  r ∈ t → title_ok titleRx r → tagRx (release_tag_name r) = Some [] →
  getTargets (Releases t) titleRx tagRx (inr rxs) = Raise (IndexError "no such group") ∧
  ∀ message, getTargets (ErrorPayload message) titleRx tagRx (inr rxs)
             = Raise (Exception message).
Proof.
  intros Hr Htitle Hm. split; [|done]. simpl.
  assert (getTargets_release titleRx tagRx rxs r = Raise (IndexError "no such group")) as Hbad.
  { unfold getTargets_release, title_ok in *. rewrite Hm.
    destruct titleRx as [rx|]; [|done]. by rewrite bool_decide_eq_true_2. }
  generalize (@nil DownloadTarget) as yielded.
  induction t as [|r' t IH]; intros yielded; [inversion Hr|]. simpl.
  destruct (getTargets_release titleRx tagRx rxs r') as [y|e] eqn:Hy; simpl.
  - apply IH. apply elem_of_cons in Hr as [->|Hr]; [congruence | done].
  - by apply getTargets_release_raises in Hy as ->.
Qed.

Lemma getTargets_raises_without_group_witness :
  getTargets (Releases [Sample.no_hashes; Sample.two_binaries]) None
    (Sample.ends_with "4") (inr Sample.roles) = Raise (IndexError "no such group") ∧
  ∀ message, getTargets (ErrorPayload message) None (Sample.ends_with "4") (inr Sample.roles)
             = Raise (Exception message).
Proof.
  apply (getTargets_raises_without_group None (Sample.ends_with "4") Sample.roles
           [Sample.no_hashes; Sample.two_binaries] Sample.two_binaries).
  - right. left.
  - exact I.
  - reflexivity.
Defined.

End MoreTargets.

Section FirstMaximum.
Import GitHubAPI.
Context {T : Type} `{ComparableDownloadTarget T}.

Lemma max_loop_keeps (l : list T) (m : T) :
  (∀ x, x ∈ l → __gt__ x m = false) →
  foldl (λ maxitem item, if __gt__ item maxitem then item else maxitem) m l = m.
Proof.
  induction l as [|x l IH]; intros Hl; simpl; [done|].
  rewrite (Hl x) by left. apply IH. intros y Hy. apply Hl. by right.
Qed.

Lemma max_first_maximum_generic (l1 l2 : list T) (m : T) :
  (∀ x, x ∈ l1 → __gt__ m x = true) →
  (∀ x, x ∈ l2 → __gt__ x m = false) →
  max (l1 ++ m :: l2) = Ok m.
Proof.
  intros Hbefore Hafter. destruct l1 as [|x l1]; simpl.
  - by rewrite max_loop_keeps.
  - rewrite foldl_app. simpl.
    destruct (max_loop_spec l1 x) as (Hin & _ & _).
    rewrite (Hbefore _ Hin). by rewrite max_loop_keeps.
Qed.

End FirstMaximum.

Section Selection.
Import GitHubAPI.

(** X4. [max] returns the first of the latest targets: a target that
    exceeds every target before it in the list and is exceeded by none after
    it is the one returned. In particular the first target of the list is
    returned when no other exceeds it, and of two targets with the same
    creation and publication instants the earlier in the list wins. *)
Theorem max_returns_the_first_maximum (before after : list DownloadTarget)
    (m : DownloadTarget) :
  (∀ x, x ∈ before → __gt__ m x = true) →
  (∀ x, x ∈ after → __gt__ x m = false) →
  max (before ++ m :: after) = Ok m.
Proof. apply max_first_maximum_generic. Qed.

Lemma max_returns_the_first_maximum_witness :
  max ([mkDownloadTarget "old" "3.12.0" false 1 2 ∅] ++
       mkDownloadTarget "new" "3.13.4" false 5 6 ∅ ::
       [mkDownloadTarget "twin" "3.13.4-again" false 5 6 ∅]) =
  Ok (mkDownloadTarget "new" "3.13.4" false 5 6 ∅).
Proof.
  apply (max_returns_the_first_maximum
           [mkDownloadTarget "old" "3.12.0" false 1 2 ∅]
           [mkDownloadTarget "twin" "3.13.4-again" false 5 6 ∅]
           (mkDownloadTarget "new" "3.13.4" false 5 6 ∅)).
  - intros x ->%list_elem_of_singleton. reflexivity.
  - intros x ->%list_elem_of_singleton. reflexivity.
Defined.

End Selection.

(** ** The patterns of the build *)

Section BuildPatterns.
Import re Patterns Spec2.

Lemma last_char_app (a b : string) : b ≠ "" → last_char (a +:+ b) = last_char b.
Proof.
  intros Hb. induction a as [|c a IH]; [done|]. rewrite app_String. simpl.
  destruct (a +:+ b) eqn:Hab; [|done].
  by apply string_app_eq_empty in Hab as [_ ?].
Qed.

Lemma string_app_nonempty_r (a b : string) : b ≠ "" → a +:+ b ≠ "".
Proof. intros Hb Hab. by apply string_app_eq_empty in Hab as [_ ?]. Qed.

Lemma string_app_inj_r (a b c : string) : a +:+ c = b +:+ c → a = b.
Proof.
  revert b; induction a as [|x a IH]; intros b Heq.
  - destruct b as [|y b]; [done|]. apply (f_equal String.length) in Heq.
    rewrite app_empty, app_String in Heq. simpl in Heq.
    rewrite string_length_app in Heq. lia.
  - destruct b as [|y b].
    + apply (f_equal String.length) in Heq.
      rewrite app_empty, app_String in Heq. simpl in Heq.
      rewrite string_length_app in Heq. lia.
    + rewrite !app_String in Heq. injection Heq as -> Heq. f_equal. by apply IH.
Qed.

(** Two anchored patterns without line feeds that match the same string
    match the same text. *)
Lemma match_anchored_common r1 r2 (s m1 m2 : string) :
  match_anchored r1 s = Some m1 → match_anchored r2 s = Some m2 →
  alphabet r1 (ascii_of_N 10) = false → alphabet r2 (ascii_of_N 10) = false →
  m1 = m2 ∧ Matches r1 m1 ∧ Matches r2 m1.
Proof.
  intros Hm1 Hm2 Hnl1 Hnl2.
  apply (match_anchored_spec _ _ _ Hnl1) in Hm1 as (H1 & Hs1).
  apply (match_anchored_spec _ _ _ Hnl2) in Hm2 as (H2 & Hs2).
  assert (m1 = m2) as <-; [|done].
  destruct Hs1 as [->| ->], Hs2 as [Heq|Heq]; try done.
  - exfalso. subst m1.
    apply (Matches_alphabet _ _ (ascii_of_N 10)) in H1; [congruence | apply mem_LF_app_LF].
  - exfalso. subst m2.
    apply (Matches_alphabet _ _ (ascii_of_N 10)) in H2; [congruence | apply mem_LF_app_LF].
  - by apply string_app_inj_r in Heq.
Qed.

Lemma Matches_tail r (c : ascii) (w m : string) :
  Matches (Cat r (Text (String c w))) m → last_char m = last_char (String c w).
Proof.
  intros (s1 & s2 & -> & _ & ->%Matches_Text)%Matches_Cat_inv.
  by apply last_char_app.
Qed.

Lemma downloadFileName_tail (m : string) :
  Matches downloadFileNameRxBody m → last_char m = Some "z"%char.
Proof.
  intros (s1 & m1 & -> & _ & (s2 & m2 & -> & _ & Hm)%Matches_Cat_inv)%Matches_Cat_inv.
  pose proof Hm as (s3 & s4 & -> & _ & ->%Matches_Text)%Matches_Cat_inv.
  rewrite !last_char_app; try done; repeat apply string_app_nonempty_r; done.
Qed.

Lemma hashesFileName_tail (m : string) :
  Matches hashesFileNameRxBody m → last_char m = Some "t"%char.
Proof.
  intros (s1 & m1 & -> & _ & (s2 & m2 & -> & _ & Hm)%Matches_Cat_inv)%Matches_Cat_inv.
  pose proof Hm as (s3 & s4 & -> & _ & ->%Matches_Text)%Matches_Cat_inv.
  rewrite !last_char_app; try done; repeat apply string_app_nonempty_r; done.
Qed.

Lemma hashesSigFileName_tail (m : string) :
  Matches hashesSigFileNameRxBody m →
  last_char m = Some "c"%char ∨ last_char m = Some "g"%char.
Proof.
  intros (s1 & m1 & -> & _ & (s2 & ext & -> & _ & Hext)%Matches_Cat_inv)%Matches_Cat_inv.
  apply Matches_Alt_inv in Hext as [->%Matches_Text|[->%Matches_Text| ->%Matches_Text]%Matches_Alt_inv].
  - left. rewrite !last_char_app; try done. by apply string_app_nonempty_r.
  - right. rewrite !last_char_app; try done. by apply string_app_nonempty_r.
  - right. rewrite !last_char_app; try done. by apply string_app_nonempty_r.
Qed.

Lemma fmap_match_is_Some (r : regex) (s : string) :
  is_Some ((λ _ : string, @nil string) <$> match_anchored r s) →
  ∃ m, match_anchored r s = Some m.
Proof. destruct (match_anchored r s); [eauto | intros [? ?]; discriminate]. Qed.

(** X5. The patterns of the three roles exclude one another: no file name
    is matched by two of them, so an asset serves at most one role. *)
Theorem role_patterns_exclude_one_another (s : string) :
  ¬ (is_Some (downloadFileNameRx s) ∧ is_Some (hashesFileNameRx s)) ∧
  ¬ (is_Some (downloadFileNameRx s) ∧ is_Some (hashesSigFileNameRx s)) ∧
  ¬ (is_Some (hashesFileNameRx s) ∧ is_Some (hashesSigFileNameRx s)).
Proof.
  unfold downloadFileNameRx, hashesFileNameRx, hashesSigFileNameRx.
  repeat split; intros [[m1 H1]%fmap_match_is_Some [m2 H2]%fmap_match_is_Some];
    destruct (match_anchored_common _ _ _ _ _ H1 H2 eq_refl eq_refl) as (_ & Hm1 & Hm2).
  - apply downloadFileName_tail in Hm1. apply hashesFileName_tail in Hm2. congruence.
  - apply downloadFileName_tail in Hm1. apply hashesSigFileName_tail in Hm2 as [?|?]; congruence.
  - apply hashesFileName_tail in Hm1. apply hashesSigFileName_tail in Hm2 as [?|?]; congruence.
Qed.


Example vmTagRx_scenario :
  vmTagRx "v3.13.4" = Some ["3.13.4"] ∧ vmTagRx "notes-3.13.4" = None ∧
  vmTagRx "v3.14.0-rc1" = Some ["3.14.0-rc1"] ∧ vmTagRx "v3" = None ∧
  vmTagRx "v1.2.3.4" = None.
Proof. repeat split; vm_compute; reflexivity. Qed.

End BuildPatterns.

(** ** Selecting the release, and where it is unpacked *)

Section BuildSelection.
Import GitHubAPI re Patterns pathlib BuildDeb Build Spec.

Lemma vmTagRx_has_group (s : string) (gs : list string) : vmTagRx s = Some gs → gs ≠ [].
Proof.
  unfold vmTagRx. destruct s as [|c rest]; [discriminate|].
  destruct (Ascii.eqb c "v"); [|discriminate].
  destruct (match_anchored versionRx rest); simpl; [by intros [= <-] | discriminate].
Qed.

Lemma vmTagRx_version (s v : string) (gs : list string) :
  vmTagRx s = Some (v :: gs) → Matches versionRx v.
Proof.
  unfold vmTagRx. destruct s as [|c rest]; [discriminate|].
  destruct (Ascii.eqb c "v"); [|discriminate].
  destruct (match_anchored versionRx rest) as [m|] eqn:Hm; simpl; [|discriminate].
  intros [= <- _]. by apply (match_anchored_spec versionRx rest m eq_refl) in Hm as [? _].
Qed.

(** X7. With the patterns of [doBuild], [getTargets] never raises on a
    list of releases. Every target it yields has a version of the form the
    tag pattern captures and exactly the three files ["binary"], ["hashes"]
    and ["hashesSig"], so that the look-ups of lines 275-285 cannot fail.
    [max] then returns one of the targets that none exceeds; when no release
    qualifies, [max] raises [ValueError]. *)
Theorem doBuild_selects_a_complete_target (t : list Release) :
  ∃ tgts,
    getTargets (Releases t) None vmTagRx (inr roles) = Ok tgts ∧
    (tgts = [] →
       doBuild_select (Releases t) = Raise (ValueError "max() arg is an empty sequence")) ∧
    (tgts ≠ [] →
       ∃ selectedTarget,
         doBuild_select (Releases t) = Ok (tgts, selectedTarget) ∧
         selectedTarget ∈ tgts ∧ ∀ x, x ∈ tgts → __gt__ x selectedTarget = false) ∧
    (∀ tgt, tgt ∈ tgts →
       Matches versionRx (version tgt) ∧
       is_Some (files tgt !! Some "binary") ∧ is_Some (files tgt !! Some "hashes") ∧
       is_Some (files tgt !! Some "hashesSig") ∧ size (files tgt) = 3%nat).
Proof.
  destruct (getTargets_loop_spec None vmTagRx roles t [] vmTagRx_has_group)
    as (tgts & Hrun & Hiff).
  exists tgts. split; [exact Hrun|]. unfold doBuild_select.
  change (getTargets (Releases t) None vmTagRx (inr roles)) with
    (for_each (λ yielded r,
        y ← getTargets_release None vmTagRx roles r ; Ok (yielded ++ option_list y)) t []).
  rewrite Hrun. simpl. split; [by intros ->|]. split.
  - intros Hne. destruct tgts as [|x tgts]; [done|]. simpl.
    destruct (max_loop_spec tgts x) as (Hin & Hx & Hall).
    eexists. split; [reflexivity|]. split; [exact Hin|].
    intros y [->|Hy]%elem_of_cons; auto.
  - intros tgt [Hnil|(r & Hr & Hy)]%Hiff; [inversion Hnil|].
    apply getTargets_release_Some in Hy as (_ & v & gs & Hm & Hall & ->).
    split; [by apply vmTagRx_version in Hm|].
    assert (∀ role rx, roles !! role = Some rx →
              is_Some (files (target_of roles r v) !! role)) as Hfiles.
    { intros role rx Hrole. simpl. rewrite collect_files_lookup, Hrole. simpl.
      apply fmap_is_Some, last_filter_is_Some. destruct (Hall role rx Hrole); eauto. }
    repeat split.
    + by apply (Hfiles _ downloadFileNameRx).
    + by apply (Hfiles _ hashesFileNameRx).
    + by apply (Hfiles _ hashesSigFileNameRx).
    + simpl. by apply collect_files_complete in Hall as ->.
Qed.

Lemma normalize_aux_snoc (l stack : list string) (c : string) :
  c ≠ ".." → normalize_aux stack (l ++ [c]) = normalize_aux stack l ++ [c].
Proof.
  intros Hc. revert stack; induction l as [|x l IH]; intros stack; simpl.
  - by apply String.eqb_neq in Hc as ->.
  - destruct (String.eqb x ".."); apply IH.
Qed.

Lemma version_has_no_slash (v : string) : Matches versionRx v → Str.mem "/" v = false.
Proof.
  intros Hv. destruct (Str.mem "/" v) eqn:Hmem; [|done].
  by apply (Matches_alphabet _ _ _ Hv) in Hmem.
Qed.

Lemma PurePath_of_cmake_directory (v : string) :
  Matches versionRx v →
  PurePath_of ("cmake-" +:+ v +:+ "-" +:+ platformMarker) =
  {| root := ""; names := ["cmake-" +:+ v +:+ "-" +:+ platformMarker] |}.
Proof.
  intros Hv%version_has_no_slash. unfold PurePath_of, Str.split.
  rewrite split_aux_last by (by rewrite !mem_app, Hv).
  rewrite !app_String, !app_empty. done.
Qed.

(** X8. For every version the tag pattern can capture, the directory
    [doBuild] takes as the root of the unpacked tree is
    [CMake_unpacked/cmake-<version>-Linux-x86_64], a direct child of the
    directory the archive was unpacked into: the version cannot lead out of
    it. *)
Theorem cmakeUnpackedRoot_is_below_unpackDir (selectedTarget : DownloadTarget)
    (cwd : list string) :
  Matches versionRx (version selectedTarget) →
  cmakeUnpackedRoot selectedTarget =
    {| root := "";
       names := ["CMake_unpacked";
                 "cmake-" +:+ version selectedTarget +:+ "-" +:+ platformMarker] |} ∧
  names (resolve cwd (cmakeUnpackedRoot selectedTarget)) =
    names (resolve cwd unpackDir) ++
    ["cmake-" +:+ version selectedTarget +:+ "-" +:+ platformMarker] ∧
  inside (resolve cwd unpackDir) (resolve cwd (cmakeUnpackedRoot selectedTarget)).
Proof.
  intros Hv. unfold cmakeUnpackedRoot. rewrite PurePath_of_cmake_directory by done.
  split; [done|].
  assert (names (resolve cwd (joinpath unpackDir
            {| root := ""; names := ["cmake-" +:+ version selectedTarget +:+ "-" +:+
                                     platformMarker] |})) =
          names (resolve cwd unpackDir) ++
          ["cmake-" +:+ version selectedTarget +:+ "-" +:+ platformMarker]) as Hnames.
  { unfold resolve, absolute, joinpath, normalize. simpl.
    rewrite <- normalize_aux_snoc by (rewrite !app_String; discriminate).
    by rewrite <- app_assoc. }
  split; [exact Hnames|]. split; [done|]. eauto.
Qed.

Lemma cmakeUnpackedRoot_is_below_unpackDir_witness :
  cmakeUnpackedRoot Sample.selected =
    {| root := "";
       names := ["CMake_unpacked"; "cmake-" +:+ "3.13.4" +:+ "-" +:+ platformMarker] |} ∧
  names (resolve ["w"] (cmakeUnpackedRoot Sample.selected)) =
    names (resolve ["w"] unpackDir) ++ ["cmake-" +:+ "3.13.4" +:+ "-" +:+ platformMarker] ∧
  inside (resolve ["w"] unpackDir) (resolve ["w"] (cmakeUnpackedRoot Sample.selected)).
Proof.
  apply (cmakeUnpackedRoot_is_below_unpackDir Sample.selected ["w"]).
  apply fullmatch_Matches. vm_compute. reflexivity.
Defined.

End BuildSelection.

(** ** The data directory *)

Section DataDir.
Import re Patterns pathlib BuildDeb Build Spec2.

Lemma name_child (dir : PurePath) (entry : string) : pathlib.name (child dir entry) = entry.
Proof. unfold pathlib.name, child. simpl. apply List.last_last. Qed.

Lemma findCMakeDataDir_loop_skip cwd t (dir : PurePath) (pre rest : list string) :
  (∀ entry, entry ∈ pre → is_data_dir cwd t dir entry = false) →
  findCMakeDataDir_loop cwd t (List.map (child dir) (pre ++ rest)) =
  findCMakeDataDir_loop cwd t (List.map (child dir) rest).
Proof.
  induction pre as [|entry pre IH]; intros Hpre; simpl; [done|].
  pose proof (Hpre entry ltac:(left)) as Hentry. unfold is_data_dir in Hentry.
  rewrite name_child.
  destruct (is_dir cwd t (child dir entry)); simpl in Hentry;
    [rewrite Hentry|]; apply IH; intros e He; apply Hpre; by right.
Qed.

Lemma relative_to_share_entry (cmakeUnpackedRoot : PurePath) (entry : string) :
  relative_to (child (joinpath cmakeUnpackedRoot (PurePath_of "share")) entry)
    cmakeUnpackedRoot = Ok {| root := ""; names := ["share"; entry] |}.
Proof.
  change (PurePath_of "share") with {| root := ""; names := ["share"] |}.
  unfold relative_to, child, joinpath. simpl. rewrite String.eqb_refl.
  assert (drop_prefix (names cmakeUnpackedRoot)
            ((names cmakeUnpackedRoot ++ ["share"]) ++ [entry]) = Some ["share"; entry]) as ->;
    [|done].
  apply drop_prefix_Some. by rewrite <- app_assoc.
Qed.

Lemma findCMakeDataDir_listed cwd t (listdir : PurePath → result (list string))
    (cmakeUnpackedRoot : PurePath) (entries : list string) :
  listdir (joinpath cmakeUnpackedRoot (PurePath_of "share")) = Ok entries →
  findCMakeDataDir cwd t listdir cmakeUnpackedRoot =
  Ok (findCMakeDataDir_loop cwd t
        (List.map (child (joinpath cmakeUnpackedRoot (PurePath_of "share"))) entries)).
Proof. intros Hlist. unfold findCMakeDataDir, iterdir. by rewrite Hlist. Qed.

(** X9. [findCMakeDataDir] returns the first entry of [share], in the order
    the directory is listed, that is a directory and whose name
    [candidateDirRx] matches; line 299 then appends ["share/<name>"] to the
    files of the data package. When no entry qualifies it returns [None],
    and line 299 raises [AttributeError]. *)
Theorem findCMakeDataDir_returns_the_first_candidate (cwd : list string)
    (t : gmap (list string) node) (listdir : PurePath → result (list string))
    (cmakeUnpackedRoot : PurePath) (entries : list string) :
  listdir (joinpath cmakeUnpackedRoot (PurePath_of "share")) = Ok entries →
  let share := joinpath cmakeUnpackedRoot (PurePath_of "share") in
  ((∀ entry, entry ∈ entries → is_data_dir cwd t share entry = false) →
     findCMakeDataDir cwd t listdir cmakeUnpackedRoot = Ok None ∧
     doBuild_dataDirEntry cwd t listdir cmakeUnpackedRoot =
       Raise (AttributeError "'NoneType' object has no attribute 'relative_to'")) ∧
  (∀ pre entry post,
     entries = pre ++ entry :: post →
     (∀ e, e ∈ pre → is_data_dir cwd t share e = false) →
     is_data_dir cwd t share entry = true →
     findCMakeDataDir cwd t listdir cmakeUnpackedRoot = Ok (Some (child share entry)) ∧
     doBuild_dataDirEntry cwd t listdir cmakeUnpackedRoot = Ok ("share/" +:+ entry) ∧
     ∃ v, Matches versionRx v ∧
          (entry = "cmake-" +:+ v ∨ entry = "cmake-" +:+ v +:+ String (ascii_of_N 10) "")).
Proof.
  intros Hlist share. unfold doBuild_dataDirEntry.
  rewrite (findCMakeDataDir_listed cwd t listdir cmakeUnpackedRoot entries Hlist).
  fold share. split.
  - intros Hnone.
    pose proof (findCMakeDataDir_loop_skip cwd t share entries [] Hnone) as Hskip.
    rewrite app_nil_r in Hskip. rewrite Hskip. done.
  - intros pre entry post -> Hpre Hentry.
    rewrite findCMakeDataDir_loop_skip by done.
    unfold is_data_dir in Hentry. apply andb_true_iff in Hentry as [Hdir Hrx].
    assert (findCMakeDataDir_loop cwd t (List.map (child share) (entry :: post)) =
            Some (child share entry)) as ->.
    { cbn [List.map findCMakeDataDir_loop]. by rewrite name_child, Hdir, Hrx. }
    split; [done|]. split.
    + unfold share.
      change ((Ok (Some (child (joinpath cmakeUnpackedRoot (PurePath_of "share")) entry))
                 : result (option PurePath)) ≫= _)
        with (relative_to (child (joinpath cmakeUnpackedRoot (PurePath_of "share")) entry)
                cmakeUnpackedRoot ≫= λ rel, Ok (str rel)).
      rewrite relative_to_share_entry.
      change (Ok {| root := ""; names := ["share"; entry] |} ≫= λ rel, Ok (str rel))
        with (Ok (str {| root := ""; names := ["share"; entry] |})).
      f_equal.
    + apply bool_decide_eq_true in Hrx. unfold candidateDirRx in Hrx.
      destruct (match_anchored candidateDirRxBody entry) as [m|] eqn:Hm;
        [|destruct Hrx; discriminate].
      apply (match_anchored_spec candidateDirRxBody entry m eq_refl) in Hm as (Hm & Hs).
      apply Matches_Cat_inv in Hm as (s1 & v & -> & ->%Matches_Text & Hv).
      exists v. split; [done|]. destruct Hs as [->| ->]; [by left | right].
      by rewrite string_app_assoc.
Qed.

Lemma findCMakeDataDir_returns_the_first_candidate_witness :
  let cwd := ["w"] in
  let t : gmap (list string) node :=
    {[ ["w"] := Dir ; ["w"; "r"] := Dir ; ["w"; "r"; "share"] := Dir ;
       ["w"; "r"; "share"; "cmake-3.13"] := Dir ;
       ["w"; "r"; "share"; "aclocal"] := Dir ]} in
  let listdir : PurePath → result (list string) := λ _, Ok ["aclocal"; "cmake-3.13"] in
  let share := joinpath (PurePath_of "r") (PurePath_of "share") in
  ((∀ entry, entry ∈ ["aclocal"; "cmake-3.13"] → is_data_dir cwd t share entry = false) →
     findCMakeDataDir cwd t listdir (PurePath_of "r") = Ok None ∧
     doBuild_dataDirEntry cwd t listdir (PurePath_of "r") =
       Raise (AttributeError "'NoneType' object has no attribute 'relative_to'")) ∧
  (∀ pre entry post,
     ["aclocal"; "cmake-3.13"] = pre ++ entry :: post →
     (∀ e, e ∈ pre → is_data_dir cwd t share e = false) →
     is_data_dir cwd t share entry = true →
     findCMakeDataDir cwd t listdir (PurePath_of "r") = Ok (Some (child share entry)) ∧
     doBuild_dataDirEntry cwd t listdir (PurePath_of "r") = Ok ("share/" +:+ entry) ∧
     ∃ v, Matches versionRx v ∧
          (entry = "cmake-" +:+ v ∨ entry = "cmake-" +:+ v +:+ String (ascii_of_N 10) "")).
Proof.
  intros cwd t listdir share.
  apply (findCMakeDataDir_returns_the_first_candidate cwd t listdir (PurePath_of "r")
           ["aclocal"; "cmake-3.13"]).
  reflexivity.
Defined.

Example doBuild_dataDirEntry_sample :
  doBuild_dataDirEntry ["w"]
    {[ ["w"] := Dir ; ["w"; "r"] := Dir ; ["w"; "r"; "share"] := Dir ;
       ["w"; "r"; "share"; "cmake-3.13"] := Dir ;
       ["w"; "r"; "share"; "aclocal"] := Dir ]}
    (λ _, Ok ["aclocal"; "cmake-3.13"]) (PurePath_of "r") = Ok "share/cmake-3.13".
Proof. vm_compute. reflexivity. Qed.

End DataDir.

(** ** More on [unpack] *)

Section MoreExtraction.
Import pathlib BuildDeb Spec Spec2.

Implicit Types (t : gmap (list string) node) (st : State) (f : TarInfo).

Lemma mkdir_aux_keeps_dirs (l stack : list string) t q :
  t !! q = Some Dir → (mkdir_aux stack l t).1 !! q = Some Dir.
Proof.
  revert stack t; induction l as [|c l IH]; intros stack t Hq; simpl; [done|].
  destruct (String.eqb c ".."); [by apply IH|].
  destruct (t !! rev (c :: stack)) as [[data|]|] eqn:Hloc; simpl in *; rewrite ?Hloc.
  - done.
  - by apply IH.
  - apply IH. rewrite lookup_insert_ne; [done|]. intros <-. congruence.
Qed.

Lemma unlink_keeps_dirs t (p : PurePath) q :
  is_file t p = true → t !! q = Some Dir → unlink t p !! q = Some Dir.
Proof.
  unfold is_file, unlink, file_at.
  destruct (walk t [] (names p)) as [loc|]; [|discriminate].
  intros [data Hdata]%bool_decide_eq_true Hq.
  rewrite lookup_delete_ne; [done|]. intros <-. rewrite Hq in Hdata. discriminate.
Qed.

Lemma extract_keeps_dirs cwd f (extrDir : PurePath) t t' q :
  extract cwd f extrDir t = Ok t' → t !! q = Some Dir → t' !! q = Some Dir.
Proof.
  unfold extract. destruct (walk t [] _) as [loc|]; [|discriminate].
  destruct (tar_type f).
  - destruct (is_dir_at t loc) eqn:Hdir; [discriminate|]. intros [= <-] Hq.
    rewrite lookup_insert_ne; [done|]. intros <-.
    unfold is_dir_at in Hdir. destruct loc; [discriminate|]. by rewrite Hq in Hdir.
  - destruct (t !! loc) eqn:Hloc; intros [= <-] Hq; [done|].
    destruct loc; [done|]. rewrite lookup_insert_ne; [done|]. intros <-. congruence.
Qed.

Lemma unpack_member_keeps_dirs cwd (extrDir : PurePath) st f q :
  fs st !! q = Some Dir → fs (unpack_member cwd extrDir st f).1 !! q = Some Dir.
Proof.
  intros Hq. unfold unpack_member.
  destruct (isSubdir cwd extrDir _) as [[]|e]; [|done|done].
  set (fp := absolute cwd (joinpath extrDir (PurePath_of (tar_name f)))).
  set (t1 := if is_file (fs st) fp then unlink (fs st) fp else fs st).
  assert (t1 !! q = Some Dir) as H1.
  { unfold t1. destruct (is_file (fs st) fp) eqn:Hfile; [by apply unlink_keeps_dirs | done]. }
  unfold mkdir_parents.
  pose proof (mkdir_aux_keeps_dirs (names (parent fp)) [] t1 q H1) as H2.
  destruct (mkdir_aux [] (names (parent fp)) t1) as [t2 [[]|e]]; simpl in *; [|done].
  destruct (extract cwd f extrDir t2) as [t3|e] eqn:Hex; simpl; [|done].
  pose proof (extract_keeps_dirs _ _ _ _ _ _ Hex H2) as H3.
  destruct (relative_to fp extrDir); done.
Qed.

(** X10. [unpack] never removes a directory and never puts a file in its
    place: a directory that exists before is a directory when [unpack]
    returns or raises. Existing trees are merged into. *)
Theorem unpack_keeps_directories cwd t (arch : Archive) (extrDir : PurePath)
    (loc : list string) :
  t !! loc = Some Dir → fs (unpack cwd t arch extrDir).1 !! loc = Some Dir.
Proof.
  intros Hloc. unfold unpack. destruct (read_unpackedSize (raw arch)) as [sz|e]; [|done].
  generalize (mkState t (mkProgressBar sz 0 "")) (Hloc : fs (mkState t (mkProgressBar sz 0 ""))
                                                          !! loc = Some Dir).
  induction (members arch) as [|f l IH]; intros st Hst; simpl; [done|].
  pose proof (unpack_member_keeps_dirs cwd (resolve cwd extrDir) st f loc Hst) as Hf.
  destruct (unpack_member cwd (resolve cwd extrDir) st f) as [st' [[]|e]]; simpl in *;
    [by apply IH | done].
Qed.

Lemma unpack_keeps_directories_witness :
  fs (unpack ["w"] {[ ["w"; "CMake_unpacked"; "cmake"] := Dir ;
                      ["w"; "CMake_unpacked"; "cmake"; "old"] := File [Byte.x09] ]}
        (mkArchive [Byte.x05; Byte.x00; Byte.x00; Byte.x00] Sample.harmless)
        (PurePath_of "CMake_unpacked")).1 !! ["w"; "CMake_unpacked"; "cmake"] = Some Dir.
Proof.
  apply (unpack_keeps_directories ["w"]
           {[ ["w"; "CMake_unpacked"; "cmake"] := Dir ;
              ["w"; "CMake_unpacked"; "cmake"; "old"] := File [Byte.x09] ]}).
  vm_compute. reflexivity.
Defined.






Lemma unpack_le32_range (b0 b1 b2 b3 : Byte.byte) :
  unpack_le32 [b0; b1; b2; b3] =
    Z.of_N (Byte.to_N b0) + 256 * Z.of_N (Byte.to_N b1) + 65536 * Z.of_N (Byte.to_N b2) +
    16777216 * Z.of_N (Byte.to_N b3) ∧
  0 ≤ unpack_le32 [b0; b1; b2; b3] < 4294967296.
Proof.
  unfold unpack_le32. simpl fold_right.
  pose proof (Byte.to_N_bounded b0). pose proof (Byte.to_N_bounded b1).
  pose proof (Byte.to_N_bounded b2). pose proof (Byte.to_N_bounded b3). lia.
Qed.

(** X12. The declared size is the unsigned little-endian number in the last
    four bytes of the archive file, below 2^32. An archive file of fewer than
    four bytes makes [unpack] raise before it touches the file system. *)
Theorem read_unpackedSize_is_the_trailer (raw0 : bytes) :
  ((length raw0 < 4)%nat →
     read_unpackedSize raw0 = Raise (OSError "Invalid argument") ∧
     ∀ cwd t l (extrDir : PurePath),
       fs (unpack cwd t (mkArchive raw0 l) extrDir).1 = t ∧
       (unpack cwd t (mkArchive raw0 l) extrDir).2 = Raise (OSError "Invalid argument")) ∧
  (∀ (pre : bytes) (b0 b1 b2 b3 : Byte.byte),
     raw0 = pre ++ [b0; b1; b2; b3] →
     read_unpackedSize raw0 =
       Ok (Z.of_N (Byte.to_N b0) + 256 * Z.of_N (Byte.to_N b1) +
           65536 * Z.of_N (Byte.to_N b2) + 16777216 * Z.of_N (Byte.to_N b3)) ∧
     ∃ z, read_unpackedSize raw0 = Ok z ∧ 0 ≤ z < 4294967296).
Proof.
  split.
  - intros Hshort.
    assert (read_unpackedSize raw0 = Raise (OSError "Invalid argument")) as Hraise.
    { unfold read_unpackedSize.
      destruct (Z.ltb_spec (Z.of_nat (length raw0) - 4) 0); [done | lia]. }
    split; [exact Hraise|]. intros cwd t l extrDir. unfold unpack. simpl.
    by rewrite Hraise.
  - intros pre b0 b1 b2 b3 ->.
    assert (read_unpackedSize (pre ++ [b0; b1; b2; b3]) = Ok (unpack_le32 [b0; b1; b2; b3]))
      as Hread.
    { unfold read_unpackedSize. rewrite length_app. simpl length.
      destruct (Z.ltb_spec (Z.of_nat (length pre + 4) - 4) 0); [lia|].
      replace (Z.to_nat (Z.of_nat (length pre + 4) - 4)) with (length pre) by lia.
      by rewrite drop_app_length. }
    rewrite Hread. destruct (unpack_le32_range b0 b1 b2 b3) as [-> Hrange].
    split; [done|]. eauto.
Qed.

End MoreExtraction.

(** ** More on the manifest *)

Section MoreManifest.
Import BuildDeb Spec Spec2.

Implicit Types (self : Reader) (line body : string).

(** A carriage return and a line feed before the end of the line change
    nothing. *)
Lemma parse_process_char_CRLF_EOL self :
  state self ≠ START_RECORD →
  (parse_process_char self (Some CR) ≫= λ self1,
   parse_process_char self1 (Some LF) ≫= λ self2, parse_process_char self2 None) =
  parse_process_char self None.
Proof. destruct self as [[] fs fd]; unfold parse_process_char; simpl; done. Qed.

Lemma row_of_CRLF line :
  line ≠ "" → row_of (line +:+ String CR (String LF "")) = row_of line.
Proof.
  intros Hline. unfold row_of. rewrite parse_line_app.
  destruct (parse_line parse_reset line) as [self|e] eqn:Hparse; simpl; [|done].
  assert (state self ≠ START_RECORD) as Hstate
    by (eapply parse_line_state; [exact Hparse | by left]).
  change (Ascii.eqb CR NUL) with false. simpl.
  pose proof (parse_process_char_CRLF_EOL self Hstate) as HCRLF.
  destruct (parse_process_char self (Some CR)) as [self1|e]; simpl in *; [|by rewrite <- HCRLF].
  change (Ascii.eqb LF NUL) with false. simpl.
  destruct (parse_process_char self1 (Some LF)) as [self2|e]; simpl in *; by rewrite <- HCRLF.
Qed.

Lemma readlines_render_crlf (entries : list ManifestLine) :
  Forall well_formed entries →
  readlines (render_crlf entries) =
  (λ e, render_line e +:+ String CR (String LF "")) <$> entries.
Proof.
  unfold readlines. induction 1 as [|e entries Hwf _ IH]; [done|].
  simpl.
  replace (render_line e +:+ String CR (String LF (render_crlf entries)))
    with ((render_line e +:+ String CR "") +:+ String LF (render_crlf entries))
    by (by rewrite string_app_assoc).
  rewrite readlines_aux_line.
  - rewrite IH, app_empty. by rewrite string_app_assoc.
  - destruct (render_line_one_line e Hwf) as (HLF & _ & _). by rewrite mem_app, HLF.
Qed.

(** X13. Line ends of carriage return and line feed are read like line
    feeds: a manifest written with them parses to the same dictionary. *)
Theorem parseHashesFile_accepts_CRLF (entries : list ManifestLine) :
  Forall well_formed entries →
  parseHashesFile (render_crlf entries) = parseHashesFile (render entries) ∧
  parseHashesFile (render_crlf entries) =
    Ok (foldl (λ res e, <[filename e := hash e]> res) ∅ entries).
Proof.
  intros Hwf. rewrite parseHashesFile_render by done.
  assert (parseHashesFile (render_crlf entries) =
          Ok (foldl (λ res e, <[filename e := hash e]> res) ∅ entries)) as ->; [|done].
  assert (Forall2 (λ line row, row_of line = Ok row) (readlines (render_crlf entries))
            ((λ e, [hash e; algorithm e; filename e]) <$> entries)) as Hrows.
  { rewrite readlines_render_crlf by done. apply Forall2_fmap, Forall_Forall2_diag.
    eapply Forall_impl; [exact Hwf|]. intros e He. simpl.
    rewrite row_of_CRLF by (unfold render_line; destruct (hash e); discriminate).
    rewrite <- (row_of_render_line e He). symmetry. apply row_of_LF.
    unfold render_line; destruct (hash e); discriminate. }
  rewrite (parseHashesFile_of_rows _ _ Hrows), parseHashesFile_loop_long.
  - by rewrite foldl_fmap.
  - intros row (e & -> & _)%list_elem_of_fmap. simpl. lia.
Qed.

Lemma parseHashesFile_accepts_CRLF_witness :
  parseHashesFile (render_crlf Sample.manifest) = parseHashesFile (render Sample.manifest) ∧
  parseHashesFile (render_crlf Sample.manifest) =
    Ok (foldl (λ res e, <[filename e := hash e]> res) ∅ Sample.manifest).
Proof.
  apply (parseHashesFile_accepts_CRLF Sample.manifest).
  repeat constructor; vm_compute; congruence.
Defined.

(** Where the parser is after a piece of a line without line breaks. *)
Lemma parse_line_plain (body : string) self :
  state self ≠ EAT_CRNL →
  one_line body →
  (N.of_nat (String.length (field self) + String.length body) <= field_limit)%N →
  ∃ self', parse_line self body = Ok self' ∧ state self' ≠ EAT_CRNL.
Proof.
  revert self; induction body as [|c body IH]; intros self Hstate Hclean Hlen.
  - exists self. done.
  - destruct Hclean as (HLF & HCR & HNUL). simpl in HLF, HCR, HNUL.
    apply orb_false_iff in HLF as [HcLF HLF], HCR as [HcCR HCR], HNUL as [HcNUL HNUL].
    simpl. rewrite HcNUL.
    assert (is_newline c = false) as Hnl by (unfold is_newline; by rewrite HcLF, HcCR).
    assert ((field_limit <=? N.of_nat (String.length (field self)))%N = false) as Hroom.
    { apply N.leb_gt. simpl in Hlen. lia. }
    assert (∃ self1, parse_process_char self (Some c) = Ok self1 ∧ state self1 ≠ EAT_CRNL ∧
                     (String.length (field self1) <= S (String.length (field self)))%nat)
      as (self1 & -> & Hstate1 & Hfield1).
    { destruct self as [[] fs fd]; unfold parse_process_char, parse_add_char; simpl in *;
        rewrite Hnl, ?Hroom; try done;
        destruct (Ascii.eqb c delimiter); simpl; rewrite ?Hroom; simpl;
        eexists; (split; [reflexivity|]); simpl; (split; [done|]);
        rewrite ?string_length_app; simpl; lia. }
    simpl. apply IH; [done | done |]. simpl in Hlen. lia.
Qed.

Lemma readlines_aux_prefix (b cur text : string) :
  Str.mem LF b = false → readlines_aux cur (b +:+ text) = readlines_aux (cur +:+ b) text.
Proof.
  revert cur; induction b as [|x b IH]; intros cur Hmem.
  - by rewrite app_empty, string_app_nil_r.
  - simpl in Hmem. apply orb_false_iff in Hmem as [Hx Hmem].
    rewrite app_String. simpl. rewrite Hx, IH by done. by rewrite string_app_assoc.
Qed.

Lemma readlines_aux_first (text cur : string) :
  cur ≠ "" → ∃ line lines, readlines_aux cur text = (cur +:+ line) :: lines.
Proof.
  revert cur; induction text as [|x text IH]; intros cur Hcur.
  - exists "", []. rewrite string_app_nil_r. simpl. by destruct cur.
  - simpl. destruct (Ascii.eqb x LF).
    + by exists (String LF ""), (readlines_aux "" text).
    + destruct (IH (cur +:+ String x "")) as (line & lines & ->).
      * apply string_app_nonempty_r. discriminate.
      * exists (String x line), lines. by rewrite string_app_assoc.
Qed.

(** X14. A carriage return inside a line, followed by anything but a line
    break, is an error of the reader: [parseHashesFile] raises [csv.Error],
    whatever follows in the text. *)
Theorem parseHashesFile_rejects_a_lone_CR (body rest : string) (c : ascii) :
  one_line body →
  (N.of_nat (String.length body) <= field_limit)%N →
  is_newline c = false → c ≠ NUL →
  parseHashesFile (body +:+ String CR (String c rest)) =
  Raise (csv_Error "new-line character seen in unquoted field").
Proof.
  intros Hbody Hlen Hc HNUL.
  assert (∃ line lines, readlines_aux "" (body +:+ String CR (String c rest)) =
                        ((body +:+ String CR (String c "")) +:+ line) :: lines)
    as (line & lines & Hread).
  { replace (body +:+ String CR (String c rest))
      with ((body +:+ String CR (String c "")) +:+ rest)
      by (by rewrite string_app_assoc).
    rewrite readlines_aux_prefix.
    - rewrite app_empty. apply readlines_aux_first.
      apply string_app_nonempty_r. discriminate.
    - rewrite mem_app. destruct Hbody as (-> & _ & _). simpl.
      unfold is_newline in Hc. apply orb_false_iff in Hc as [-> _]. done. }
  unfold parseHashesFile, readlines. rewrite Hread. simpl.
  rewrite !parse_line_app.
  destruct (parse_line_plain body parse_reset) as (self & -> & Hstate); [done | done | done |].
  simpl. change (Ascii.eqb CR NUL) with false. simpl.
  assert (∃ self1, parse_process_char self (Some CR) = Ok self1 ∧ state self1 = EAT_CRNL)
    as (self1 & -> & Hstate1).
  { destruct self as [[] fs fd]; unfold parse_process_char; simpl in *;
      eexists; split; try reflexivity; done. }
  simpl. apply Ascii.eqb_neq in HNUL. rewrite HNUL. simpl.
  destruct self1 as [st1 fs1 fd1]. simpl in Hstate1. subst st1.
  unfold parse_process_char. simpl. by rewrite Hc.
Qed.

Lemma parseHashesFile_rejects_a_lone_CR_witness :
  parseHashesFile ("abc123 SHA-256" +:+ String CR (String "f" "oo.tar.gz")) =
  Raise (csv_Error "new-line character seen in unquoted field").
Proof.
  apply (parseHashesFile_rejects_a_lone_CR "abc123 SHA-256" "oo.tar.gz" "f").
  - repeat split; vm_compute; reflexivity.
  - vm_compute. congruence.
  - reflexivity.
  - discriminate.
Defined.

End MoreManifest.

(** ** More on the trust chain *)

Section MoreTrust.
Import pathlib BuildDeb Spec.

Implicit Types (gpgContext : Context).

Lemma verifyBlob_Ok gpgContext (signedData signature : string)
    (keyFingerprint subkeyFingerprint : option string) (b : bool) :
  verifyBlob gpgContext signedData signature keyFingerprint subkeyFingerprint = Ok b →
  b = true ∧
  ∃ allowed res s,
    allowedFingerprints gpgContext keyFingerprint subkeyFingerprint = Ok allowed ∧
    verify gpgContext signedData signature = Ok res ∧ s ∈ res ∧ sig_fpr s ∈ allowed.
Proof.
  unfold verifyBlob.
  destruct (allowedFingerprints _ _ _) as [allowed|e]; simpl; [|discriminate].
  destruct (verify gpgContext signedData signature) as [res|e]; simpl; [|discriminate].
  destruct (existsb _ res) eqn:Hex; [|discriminate].
  intros [= <-]. split; [done|].
  apply existsb_allowed in Hex as (s & Hs & Hin). eauto 7.
Qed.

(** [findKeyByFingerprint] returns the first key of the keyring whose
    fingerprint is [fp], character for character, and [None] exactly when
    the keyring has no such key. *)
Lemma findKeyByFingerprint_Some gpgContext (fp : string) (key : Key) :
  findKeyByFingerprint gpgContext fp = Some key ↔
  ∃ before after,
    op_keylist_all gpgContext = before ++ key :: after ∧
    key_fpr key = fp ∧ ∀ k, k ∈ before → key_fpr k ≠ fp.
Proof.
  unfold findKeyByFingerprint.
  induction (op_keylist_all gpgContext) as [|k keys IH]; simpl.
  - split; [discriminate | intros ([|??] & ? & ? & _); discriminate].
  - destruct (String.eqb_spec (key_fpr k) fp) as [Heq|Hne].
    + split.
      * intros [= <-]. exists [], keys. split; [done|]. split; [done|].
        intros k' Hk'. inversion Hk'.
      * intros ([|k' before] & after & Hl & Hfp & Hbefore); simpl in Hl.
        -- by injection Hl as ->.
        -- injection Hl as -> _. exfalso. apply (Hbefore k'); [left | done].
    + rewrite IH. split.
      * intros (before & after & -> & Hfp & Hbefore).
        exists (k :: before), after. split; [done|]. split; [done|].
        intros k' [->|Hk']%elem_of_cons; auto.
      * intros ([|k' before] & after & Hl & Hfp & Hbefore); simpl in Hl.
        -- injection Hl as -> _. done.
        -- injection Hl as -> ->. exists before, after. split; [done|].
           split; [done|]. intros k Hk. apply Hbefore. by right.
Qed.

Lemma findKeyByFingerprint_None gpgContext (fp : string) :
  findKeyByFingerprint gpgContext fp = None ↔
  ∀ k, k ∈ op_keylist_all gpgContext → key_fpr k ≠ fp.
Proof.
  unfold findKeyByFingerprint. split.
  - intros Hnone k Hk%list_elem_of_In Hfp.
    apply (find_none _ _ Hnone) in Hk. rewrite Hfp, String.eqb_refl in Hk. discriminate.
  - intros Hall. destruct (find _ _) as [k|] eqn:Hfind; [|done].
    apply find_some in Hfind as [Hin%list_elem_of_In Hfp%String.eqb_eq].
    by destruct (Hall k Hin).
Qed.

(** X15. The trust anchor of [verifyBlob]. A key fingerprint, when given,
    is the only one used: the subkey fingerprint is then ignored. Without a
    usable anchor nothing is accepted: with neither fingerprint given, or
    with a key fingerprint that, in upper case, is the fingerprint of no key
    of the keyring, [verifyBlob] never returns, whatever the signatures
    are; in the second case [findKeyByFingerprint] has returned [None] and
    the exception is the [AttributeError] of [None.subkeys]. *)
Theorem verifyBlob_needs_a_trust_anchor gpgContext (signedData signature : string)
    (keyFingerprint subkeyFingerprint : option string) :
  (∀ k, truthy keyFingerprint = Some k →
     verifyBlob gpgContext signedData signature keyFingerprint subkeyFingerprint =
     verifyBlob gpgContext signedData signature keyFingerprint None) ∧
  (∀ k, truthy keyFingerprint = Some k →
     (∀ key, key ∈ op_keylist_all gpgContext → key_fpr key ≠ Str.upper k) →
     findKeyByFingerprint gpgContext (Str.upper k) = None ∧
     verifyBlob gpgContext signedData signature keyFingerprint subkeyFingerprint =
     Raise (AttributeError "'NoneType' object has no attribute 'subkeys'")) ∧
  (truthy keyFingerprint = None → truthy subkeyFingerprint = None →
     ∀ b, verifyBlob gpgContext signedData signature keyFingerprint subkeyFingerprint
          ≠ Ok b).
Proof.
  split; [|split].
  - intros k Hk. unfold verifyBlob, allowedFingerprints. by rewrite Hk.
  - intros k Hk Hmissing%findKeyByFingerprint_None. split; [done|].
    unfold verifyBlob, allowedFingerprints. by rewrite Hk, Hmissing.
  - intros Hkey Hsub b (_ & allowed & res & s & Hallowed & _ & _ & Hin)%verifyBlob_Ok.
    unfold allowedFingerprints in Hallowed. rewrite Hkey, Hsub in Hallowed.
    injection Hallowed as <-. by apply not_elem_of_empty in Hin.
Qed.

(** X16. What a returned path vouches for. If the fetch returns, it
    returns [archPath], and then: the keyring holds a key whose fingerprint is
    [signingKeyFingerprint], the first such key is the one
    [findKeyByFingerprint] took, and the signature over the manifest was
    accepted by [verifyBlob] with a signer among the subkeys of that key; the
    manifest parsed; it has an entry for the file name of the archive; and
    the digest of the downloaded archive equals that entry up to case. *)
Theorem doBuild_fetch_returns_only_verified (w : World)
    (selectedTarget : GitHubAPI.DownloadTarget) (p : PurePath) :
  doBuild_fetch w selectedTarget = Ok p →
  p = archPath ∧
  ∃ hashesFile hashesSigFile binary hashesRaw hashesSigRaw hashes etalon archive,
    GitHubAPI.files selectedTarget !! Some "hashes" = Some hashesFile ∧
    GitHubAPI.files selectedTarget !! Some "hashesSig" = Some hashesSigFile ∧
    GitHubAPI.files selectedTarget !! Some "binary" = Some binary ∧
    http_get w (GitHubAPI.file_uri hashesFile) = Ok hashesRaw ∧
    http_get w (GitHubAPI.file_uri hashesSigFile) = Ok hashesSigRaw ∧
    verifyBlob (gpgContext w) hashesRaw hashesSigRaw (Some signingKeyFingerprint) None
      = Ok true ∧
    (∃ key res s,
       key ∈ op_keylist_all (gpgContext w) ∧
       key_fpr key = signingKeyFingerprint ∧
       findKeyByFingerprint (gpgContext w) signingKeyFingerprint = Some key ∧
       verify (gpgContext w) hashesRaw hashesSigRaw = Ok res ∧ s ∈ res ∧
       ∃ sk, sk ∈ subkeys key ∧ subkey_fpr sk = sig_fpr s) ∧
    parseHashesFile hashesRaw = Ok hashes ∧
    hashes !! name (PurePath_of (GitHubAPI.file_uri binary)) = Some etalon ∧
    http_get w (GitHubAPI.file_uri binary) = Ok archive ∧
    Str.lower (sha256 w archive) = Str.lower etalon.
Proof.
  unfold doBuild_fetch, dict_getitem.
  destruct (GitHubAPI.files selectedTarget !! Some "hashes") as [hashesFile|];
    simpl; [|discriminate].
  destruct (http_get w (GitHubAPI.file_uri hashesFile)) as [hashesRaw|] eqn:HhashesRaw;
    simpl; [|discriminate].
  destruct (GitHubAPI.files selectedTarget !! Some "hashesSig") as [hashesSigFile|];
    simpl; [|discriminate].
  destruct (http_get w (GitHubAPI.file_uri hashesSigFile)) as [hashesSigRaw|] eqn:HsigRaw;
    simpl; [|discriminate].
  destruct (verifyBlob _ hashesRaw hashesSigRaw _ _) as [b|] eqn:Hverify;
    simpl; [|discriminate].
  destruct (parseHashesFile hashesRaw) as [hashes|] eqn:Hparse; simpl; [|discriminate].
  destruct (GitHubAPI.files selectedTarget !! Some "binary") as [binary|];
    simpl; [|discriminate].
  destruct (hashes !! name (PurePath_of (GitHubAPI.file_uri binary))) as [etalon|] eqn:Hentry;
    simpl; [|discriminate].
  destruct (http_get w (GitHubAPI.file_uri binary)) as [archive|] eqn:Harchive;
    simpl; [|discriminate].
  destruct (http_get w licenseFileURI) as [license|]; simpl; [|discriminate].
  destruct (String.eqb_spec (Str.lower (sha256 w archive)) (Str.lower etalon)) as [Heq|];
    [|discriminate].
  intros [= <-]. split; [done|].
  pose proof Hverify as (-> & allowed & res & s & Hallowed & Hres & Hs & Hin)%verifyBlob_Ok.
  apply allowedFingerprints_spec in Hallowed. simpl in Hallowed.
  destruct Hallowed as (key & Hkey & Hsubkeys).
  apply Hsubkeys in Hin as (sk & Hsk & Hfpr).
  exists hashesFile, hashesSigFile, binary, hashesRaw, hashesSigRaw, hashes, etalon, archive.
  repeat split; try done.
  pose proof Hkey as (before & after & Hring & Hfp & _)%findKeyByFingerprint_Some.
  exists key, res, s. repeat split; try done; [|by exists sk].
  rewrite Hring, elem_of_app. right. left.
Qed.

Lemma doBuild_fetch_returns_only_verified_witness :
  archPath = archPath ∧
  ∃ hashesFile hashesSigFile binary hashesRaw hashesSigRaw hashes etalon archive,
    GitHubAPI.files Sample.selected !! Some "hashes" = Some hashesFile ∧
    GitHubAPI.files Sample.selected !! Some "hashesSig" = Some hashesSigFile ∧
    GitHubAPI.files Sample.selected !! Some "binary" = Some binary ∧
    http_get (Sample.world "abc123" "ABC123") (GitHubAPI.file_uri hashesFile) = Ok hashesRaw ∧
    http_get (Sample.world "abc123" "ABC123") (GitHubAPI.file_uri hashesSigFile)
      = Ok hashesSigRaw ∧
    verifyBlob (gpgContext (Sample.world "abc123" "ABC123")) hashesRaw hashesSigRaw
      (Some signingKeyFingerprint) None = Ok true ∧
    (∃ key res s,
       key ∈ op_keylist_all (gpgContext (Sample.world "abc123" "ABC123")) ∧
       key_fpr key = signingKeyFingerprint ∧
       findKeyByFingerprint (gpgContext (Sample.world "abc123" "ABC123"))
         signingKeyFingerprint = Some key ∧
       verify (gpgContext (Sample.world "abc123" "ABC123")) hashesRaw hashesSigRaw = Ok res ∧
       s ∈ res ∧ ∃ sk, sk ∈ subkeys key ∧ subkey_fpr sk = sig_fpr s) ∧
    parseHashesFile hashesRaw = Ok hashes ∧
    hashes !! name (PurePath_of (GitHubAPI.file_uri binary)) = Some etalon ∧
    http_get (Sample.world "abc123" "ABC123") (GitHubAPI.file_uri binary) = Ok archive ∧
    Str.lower (sha256 (Sample.world "abc123" "ABC123") archive) = Str.lower etalon.
Proof.
  apply (doBuild_fetch_returns_only_verified (Sample.world "abc123" "ABC123")
           Sample.selected archPath).
  vm_compute. reflexivity.
Defined.

(** X17. A manifest without an entry for the archive: when the manifest is
    verified and parsed but does not name the archive's file, the fetch
    raises [KeyError] with that name, whatever the archive's URI serves. *)
Theorem doBuild_fetch_missing_entry (w : World) (selectedTarget : GitHubAPI.DownloadTarget)
    (hashesFile hashesSigFile binary : GitHubAPI.DownloadTargetFile)
    (hashesRaw hashesSigRaw : string) (hashes : gmap string string) :
  GitHubAPI.files selectedTarget !! Some "hashes" = Some hashesFile →
  GitHubAPI.files selectedTarget !! Some "hashesSig" = Some hashesSigFile →
  GitHubAPI.files selectedTarget !! Some "binary" = Some binary →
  http_get w (GitHubAPI.file_uri hashesFile) = Ok hashesRaw →
  http_get w (GitHubAPI.file_uri hashesSigFile) = Ok hashesSigRaw →
  verifyBlob (gpgContext w) hashesRaw hashesSigRaw (Some signingKeyFingerprint) None
    = Ok true →
  parseHashesFile hashesRaw = Ok hashes →
  hashes !! name (PurePath_of (GitHubAPI.file_uri binary)) = None →
  doBuild_fetch w selectedTarget =
  Raise (KeyError (name (PurePath_of (GitHubAPI.file_uri binary)))).
Proof.
  intros Hhashes Hsig Hbinary HhashesRaw HsigRaw Hverified Hparsed Hentry.
  unfold doBuild_fetch, dict_getitem.
  rewrite Hhashes; simpl. rewrite HhashesRaw; simpl.
  rewrite Hsig; simpl. rewrite HsigRaw; simpl.
  rewrite Hverified; simpl. rewrite Hparsed; simpl.
  rewrite Hbinary; simpl. by rewrite Hentry.
Qed.

Lemma doBuild_fetch_missing_entry_witness :
  doBuild_fetch (Sample.world "abc123" "abc123")
    (GitHubAPI.mkDownloadTarget "CMake 3.13.4" "3.13.4" false 100 200
       {[ Some "hashes" := Sample.hashes_file ; Some "hashesSig" := Sample.hashesSig_file ;
          Some "binary" := GitHubAPI.mkDownloadTargetFile (Some "binary") 1 2
                             "https://example.org/dl/bar.tar.gz" ]}) =
  Raise (KeyError (name (PurePath_of "https://example.org/dl/bar.tar.gz"))).
Proof.
  apply (doBuild_fetch_missing_entry (Sample.world "abc123" "abc123") _
           Sample.hashes_file Sample.hashesSig_file
           (GitHubAPI.mkDownloadTargetFile (Some "binary") 1 2
              "https://example.org/dl/bar.tar.gz")
           ("abc123 SHA-256 foo.tar.gz" +:+ String LF "") "signature"
           {[ "foo.tar.gz" := "abc123" ]});
    vm_compute; reflexivity.
Defined.

End MoreTrust.

(** ** The calls of [ripCMakePackage] *)

Section Ripping.
Import pathlib Packaging.

Implicit Types (tr : list call) (config : list (string * option RipCfg)).

Lemma andthen_None (a b : list call * option raised) tr :
  andthen a b = (tr, None) → a.2 = None ∧ b.2 = None ∧ tr = a.1 ++ b.1.
Proof.
  destruct a as [ta [e|]], b as [tb eb]; simpl; [discriminate|].
  by intros [= <- ->].
Qed.

Lemma elem_of_andthen (a b : list call * option raised) c :
  c ∈ (andthen a b).1 → c ∈ a.1 ∨ c ∈ b.1.
Proof.
  destruct a as [ta [e|]], b as [tb eb]; simpl; [auto|].
  intros [?|?]%elem_of_app; auto.
Qed.

Lemma elem_of_each {A} (body : A → list call * option raised) (l : list A) c :
  c ∈ (each body l).1 → ∃ x, x ∈ l ∧ c ∈ (body x).1.
Proof.
  induction l as [|x l IH]; simpl; [by intros ?%elem_of_nil|].
  intros [Hx|(y & Hy & Hc)%IH]%elem_of_andthen.
  - exists x. split; [left | done].
  - exists y. split; [by right | done].
Qed.

(** The calls of one package's block are rips and copies on that package. *)
Lemma rip_package_calls listdir (unpackedDir licenseFilePath : PurePath) pkg pkgName r c :
  c ∈ (rip_package listdir unpackedDir licenseFilePath pkg pkgName r).1 →
  handle_of c = pkg ∧ gives_files c = true.
Proof.
  unfold rip_package.
  intros [(el & _ & Hc)%elem_of_each|[(el & _ & Hc)%elem_of_each|
          [(entry & _ & Hc)%elem_of_each|Hc]%elem_of_andthen]%elem_of_andthen]%elem_of_andthen.
  - by apply list_elem_of_singleton in Hc as ->.
  - by apply list_elem_of_singleton in Hc as ->.
  - unfold rip_man in Hc. destruct entry as [name section].
    destruct (BuildDeb.truthy name).
    + by apply list_elem_of_singleton in Hc as ->.
    + destruct (Build.iterdir _ _) as [manFs|e]; [|by apply elem_of_nil in Hc].
      apply elem_of_each in Hc as (manF & _ & Hc).
      destruct (relative_to manF unpackedDir); [|by apply elem_of_nil in Hc].
      by apply list_elem_of_singleton in Hc as ->.
  - by apply list_elem_of_singleton in Hc as ->.
Qed.

Lemma andthen_snd_None (a b : list call * option raised) :
  (andthen a b).2 = None → a.2 = None ∧ b.2 = None ∧ (andthen a b).1 = a.1 ++ b.1.
Proof. destruct a as [ta [e|]], b as [tb eb]; simpl; [discriminate | done]. Qed.

Lemma rip_package_copies listdir (unpackedDir licenseFilePath : PurePath) pkg pkgName r tr :
  rip_package listdir unpackedDir licenseFilePath pkg pkgName r = (tr, None) →
  copy pkg licenseFilePath ("usr/share/doc/" +:+ pkgName +:+ "/copyright") ∈ tr.
Proof.
  unfold rip_package.
  intros (_ & (_ & (_ & _ & H3)%andthen_snd_None & H2)%andthen_snd_None & ->)%andthen_None.
  rewrite H2, H3. rewrite !elem_of_app. right. right. right. left.
Qed.

Lemma ripCMakePackage_loop_spec listdir (unpackedDir licenseFilePath : PurePath)
    (version : string) config made pkg (results : gmap string nat) tr made' pkg' results' :
  ripCMakePackage_loop listdir unpackedDir licenseFilePath version config made pkg results =
    (tr, inr (made', pkg', results')) →
  made' = (made + length config)%nat ∧
  pkg' = match config with [] => pkg | _ => Some (made + length config - 1)%nat end ∧
  (∀ c, c ∈ tr → (made ≤ handle_of c < made')%nat) ∧
  (∀ i pkgName pkgCfg, config !! i = Some (pkgName, pkgCfg) →
     is_Some pkgCfg ∧ Package (made + i) pkgName version ∈ tr ∧
     copy (made + i) licenseFilePath ("usr/share/doc/" +:+ pkgName +:+ "/copyright") ∈ tr).
Proof.
  revert made pkg results tr.
  induction config as [|[pkgName [r|]] config IH]; intros made pkg results tr.
  - simpl. intros [= <- <- <- <-]. split; [lia|]. split; [done|]. split.
    + by intros c Hc%elem_of_nil.
    + intros i ? ? Hi. by rewrite lookup_nil in Hi.
  - cbn [ripCMakePackage_loop].
    destruct (rip_package listdir unpackedDir licenseFilePath made pkgName r)
      as [trp o] eqn:Hpkg.
    unfold emit, andthen. cbn [fst snd].
    destruct o as [e|]; [discriminate|].
    destruct (ripCMakePackage_loop _ _ _ _ config _ _ _) as [tr' out] eqn:Hloop.
    intros [= <- ->].
    apply IH in Hloop as (-> & -> & Hhandles & Hentries).
    split; [simpl; lia|]. split; [|split].
    + destruct config; simpl; f_equal; lia.
    + intros c [->|[Hc|Hc]%elem_of_app]%elem_of_cons.
      * simpl. lia.
      * pose proof (rip_package_calls listdir unpackedDir licenseFilePath made pkgName r c)
          as Hcall.
        rewrite Hpkg in Hcall. destruct (Hcall Hc) as [-> _]. simpl. lia.
      * apply Hhandles in Hc. simpl. lia.
    + intros [|i] name cfg Hi; simpl in Hi.
      * injection Hi as <- <-. rewrite Nat.add_0_r. split; [done|]. split.
        -- left.
        -- right. apply elem_of_app. left. by apply rip_package_copies in Hpkg.
      * apply Hentries in Hi as (Hcfg & HP & Hcopy).
        replace (made + S i)%nat with (S made + i)%nat by lia.
        split; [done|]. split; right; apply elem_of_app; by right.
  - discriminate.
Qed.

(** X18. When [ripCMakePackage] returns, its last two calls are the
    construction of the documentation package and the rip of the [doc]
    directory, and that rip is made on the package of the last entry of
    [config], the one [pkg] is still bound to, not on the documentation
    package: no file is ever given to the documentation package. With an
    empty [config] the use of [pkg] is an error. *)
Theorem ripCMakePackage_rips_doc_into_the_last_package config
    (listdir : PurePath → result (list string)) (unpackedDir licenseFilePath : PurePath)
    (version : string) :
  (∀ tr results,
     ripCMakePackage config listdir unpackedDir licenseFilePath version = (tr, inr results) →
     config ≠ [] ∧
     (∃ pre, tr = pre ++
        [Package (length config) (ourCMakePrefix +:+ "-doc") version;
         rip (length config - 1) (joinpath unpackedDir (PurePath_of "doc")) "usr/share/doc"]) ∧
     (∀ c, c ∈ tr → gives_files c = true → (handle_of c < length config)%nat) ∧
     results !! (ourCMakePrefix +:+ "-doc") = Some (length config)) ∧
  (config = [] →
     ripCMakePackage config listdir unpackedDir licenseFilePath version =
     ([Package 0 (ourCMakePrefix +:+ "-doc") version], inl (UnboundLocalError "pkg"))).
Proof.
  split; [|by intros ->].
  intros tr results. unfold ripCMakePackage.
  destruct (ripCMakePackage_loop _ _ _ _ config 0 None ∅) as [tr0 [e|[[made pkg] res]]] eqn:Hloop;
    [discriminate|].
  apply ripCMakePackage_loop_spec in Hloop as (-> & -> & Hhandles & _).
  destruct config as [|entry config]; [discriminate|].
  intros [= <- <-]. split; [done|]. split; [|split].
  - exists tr0. by rewrite <- app_assoc.
  - intros c [[Hc|Hc]%elem_of_app|Hc]%elem_of_app Hfiles.
    + apply Hhandles in Hc. simpl in *. lia.
    + apply list_elem_of_singleton in Hc as ->. discriminate.
    + apply list_elem_of_singleton in Hc as ->. simpl. lia.
  - apply lookup_insert_eq.
Qed.

(** X19. When [ripCMakePackage] returns, every entry of [config] has a
    ["rip"] key, and its package, made with the entry's name and the version
    handed in, received the license as
    [usr/share/doc/<name>/copyright]. *)
Theorem ripCMakePackage_copies_the_license config
    (listdir : PurePath → result (list string)) (unpackedDir licenseFilePath : PurePath)
    (version : string) tr results (i : nat) (pkgName : string) (pkgCfg : option RipCfg) :
  ripCMakePackage config listdir unpackedDir licenseFilePath version = (tr, inr results) →
  config !! i = Some (pkgName, pkgCfg) →
  is_Some pkgCfg ∧ Package i pkgName version ∈ tr ∧
  copy i licenseFilePath ("usr/share/doc/" +:+ pkgName +:+ "/copyright") ∈ tr.
Proof.
  unfold ripCMakePackage.
  destruct (ripCMakePackage_loop _ _ _ _ config 0 None ∅) as [tr0 [e|[[made pkg] res]]] eqn:Hloop;
    [discriminate|].
  apply ripCMakePackage_loop_spec in Hloop as (_ & _ & _ & Hentries).
  destruct pkg as [pkg|]; [|discriminate].
  intros [= <- <-] Hi. apply Hentries in Hi as (Hcfg & HP & Hcopy). simpl in *.
  split; [done|]. split; rewrite !elem_of_app; auto.
Qed.

Lemma ripCMakePackage_rips_doc_into_the_last_package_witness :
  let run := ripCMakePackage config (λ _, Ok ["cmake.7"])
               (PurePath_of "CMake_unpacked/cmake-3.13.4-Linux-x86_64")
               (PurePath_of "licenses/CMake-BSD.txt") "3.13.4" in
  ∃ results, run.2 = inr results ∧
    config ≠ [] ∧
    (∃ pre, run.1 = pre ++
       [Package (length config) (ourCMakePrefix +:+ "-doc") "3.13.4";
        rip (length config - 1)
          (joinpath (PurePath_of "CMake_unpacked/cmake-3.13.4-Linux-x86_64")
             (PurePath_of "doc")) "usr/share/doc"]) ∧
    (∀ c, c ∈ run.1 → gives_files c = true → (handle_of c < length config)%nat) ∧
    results !! (ourCMakePrefix +:+ "-doc") = Some (length config).
Proof.
  intros run.
  destruct run as [tr [e|results]] eqn:Hrun; [by vm_compute in Hrun|].
  exists results. split; [done|].
  apply (proj1 (ripCMakePackage_rips_doc_into_the_last_package config (λ _, Ok ["cmake.7"])
           (PurePath_of "CMake_unpacked/cmake-3.13.4-Linux-x86_64")
           (PurePath_of "licenses/CMake-BSD.txt") "3.13.4") tr results).
  exact Hrun.
Defined.

Lemma ripCMakePackage_copies_the_license_witness :
  let run := ripCMakePackage config (λ _, Ok ["cmake.7"])
               (PurePath_of "CMake_unpacked/cmake-3.13.4-Linux-x86_64")
               (PurePath_of "licenses/CMake-BSD.txt") "3.13.4" in
  Package 1 (ourCMakePrefix +:+ "-curses") "3.13.4" ∈ run.1 ∧
  copy 1 (PurePath_of "licenses/CMake-BSD.txt")
    ("usr/share/doc/" +:+ (ourCMakePrefix +:+ "-curses") +:+ "/copyright") ∈ run.1.
Proof.
  intros run.
  destruct run as [tr [e|results]] eqn:Hrun; [by vm_compute in Hrun|].
  apply (ripCMakePackage_copies_the_license config (λ _, Ok ["cmake.7"])
           (PurePath_of "CMake_unpacked/cmake-3.13.4-Linux-x86_64")
           (PurePath_of "licenses/CMake-BSD.txt") "3.13.4" tr results 1
           (ourCMakePrefix +:+ "-curses")
           (Some (mkRipCfg None (Some ["ccmake"]) (Some [(Some "ccmake", 1)])))).
  - exact Hrun.
  - reflexivity.
Defined.

End Ripping.

(** ** The version of the packages *)

Section PackageVersion.
Import GitHubAPI Build.

(** X20. The packages get the version of the first target of the list,
    the archive that is unpacked is that of the selected target. The two are
    the same target when no later target of the list exceeds the first; when
    one does, the selected target is another, later created or published,
    and the packages still carry the version of the first. *)
Theorem doBuild_versions_packages_by_the_first_target (t : Response)
    (tgts : list DownloadTarget) (selectedTarget : DownloadTarget) :
  doBuild_select t = Ok (tgts, selectedTarget) →
  ∃ first rest,
    tgts = first :: rest ∧
    doBuild_packageVersion tgts = Ok (version first) ∧
    ((∀ x, x ∈ rest → __gt__ x first = false) → selectedTarget = first) ∧
    ((∃ x, x ∈ rest ∧ __gt__ x first = true) →
       selectedTarget ≠ first ∧ __gt__ selectedTarget first = true ∧ selectedTarget ∈ rest).
Proof.
  unfold doBuild_select.
  destruct (getTargets t None Patterns.vmTagRx (inr Patterns.roles)) as [l|e]; simpl;
    [|discriminate].
  destruct l as [|first rest]; simpl; [discriminate|].
  intros [= <- <-]. exists first, rest. split; [done|]. split; [done|].
  destruct (max_loop_spec rest first) as (Hin & Hfirst & Hall).
  split.
  - intros Hrest. by apply max_loop_keeps.
  - intros (x & Hx & Hgt).
    set (sel := foldl (λ maxitem item, if __gt__ item maxitem then item else maxitem)
                  first rest) in *.
    assert (__gt__ sel first = true) as Hsel.
    { destruct (__gt__ sel first) eqn:Hs; [done|].
      pose proof (not_gt_trans x sel first (Hall x Hx) Hs). congruence. }
    assert (sel ≠ first) as Hne.
    { intros Heq. rewrite Heq in Hsel. rewrite gt_irrefl in Hsel. discriminate. }
    split; [done|]. split; [done|].
    by apply elem_of_cons in Hin as [?|?].
Qed.

Lemma doBuild_versions_packages_by_the_first_target_witness :
  let old := mkRelease "CMake 3.12.0" "v3.12.0" false 10 20
               [ mkAsset "cmake-3.12.0-Linux-x86_64.tar.gz" 1 2 "https://example.org/a" ;
                 mkAsset "cmake-3.12.0-SHA-256.txt" 1 2 "https://example.org/b" ;
                 mkAsset "cmake-3.12.0-SHA-256.txt.asc" 1 2 "https://example.org/c" ] in
  let new := mkRelease "CMake 3.13.4" "v3.13.4" false 30 40
               [ mkAsset "cmake-3.13.4-Linux-x86_64.tar.gz" 1 2 "https://example.org/d" ;
                 mkAsset "cmake-3.13.4-SHA-256.txt" 1 2 "https://example.org/e" ;
                 mkAsset "cmake-3.13.4-SHA-256.txt.asc" 1 2 "https://example.org/f" ] in
  ∃ tgts selectedTarget,
    doBuild_select (Releases [old; new]) = Ok (tgts, selectedTarget) ∧
    version selectedTarget = "3.13.4" ∧
    ∃ first rest,
      tgts = first :: rest ∧
      doBuild_packageVersion tgts = Ok (version first) ∧
      ((∀ x, x ∈ rest → __gt__ x first = false) → selectedTarget = first) ∧
      ((∃ x, x ∈ rest ∧ __gt__ x first = true) →
         selectedTarget ≠ first ∧ __gt__ selectedTarget first = true ∧
         selectedTarget ∈ rest).
Proof.
  intros old new.
  destruct (doBuild_select (Releases [old; new])) as [[tgts selectedTarget]|e] eqn:Hrun;
    [|by vm_compute in Hrun].
  exists tgts, selectedTarget. split; [done|]. split.
  - vm_compute in Hrun. by injection Hrun as <- <-.
  - apply (doBuild_versions_packages_by_the_first_target (Releases [old; new])
             tgts selectedTarget). exact Hrun.
Defined.

Example doBuild_package_version_of_an_older_release :
  let old := mkRelease "CMake 3.12.0" "v3.12.0" false 10 20
               [ mkAsset "cmake-3.12.0-Linux-x86_64.tar.gz" 1 2 "https://example.org/a" ;
                 mkAsset "cmake-3.12.0-SHA-256.txt" 1 2 "https://example.org/b" ;
                 mkAsset "cmake-3.12.0-SHA-256.txt.asc" 1 2 "https://example.org/c" ] in
  let new := mkRelease "CMake 3.13.4" "v3.13.4" false 30 40
               [ mkAsset "cmake-3.13.4-Linux-x86_64.tar.gz" 1 2 "https://example.org/d" ;
                 mkAsset "cmake-3.13.4-SHA-256.txt" 1 2 "https://example.org/e" ;
                 mkAsset "cmake-3.13.4-SHA-256.txt.asc" 1 2 "https://example.org/f" ] in
  match doBuild_select (Releases [old; new]) with
  | Ok (tgts, selectedTarget) =>
      version selectedTarget = "3.13.4" ∧ doBuild_packageVersion tgts = Ok "3.12.0"
  | Raise _ => False
  end.
Proof. vm_compute. split; reflexivity. Qed.

End PackageVersion.
